(** * soundcloud-likes-backup: the fallback download engine of [downloader.py]

    A shallow embedding of [SoundCloudDownloader]: the filename sanitizer,
    the three service resolvers and [download_track], over an explicit model
    of the filesystem, the HTTP session and the logger. *)

From Stdlib Require Import ZArith NArith List String Ascii Bool Lia.
From Stdlib Require Import Init.Byte.
From stdpp Require Import gmap list.
Import ListNotations.

Set Default Proof Using "Type".

(** ** Python strings

    A Python [str] is a sequence of Unicode code points; [len], slicing,
    [re.sub] and [str.replace] all work on code points. *)

Abbreviation pystr := (list N) (only parsing).

Definition py (s : string) : pystr := map N_of_ascii (list_ascii_of_string s).

Definition pystr_eqb (a b : pystr) : bool := bool_decide (a = b).

Module Sanitizer.

(** The character class of the pattern passed to [re.sub] on line 61, as
    code points: less-than, greater-than, colon, double quote, slash,
    backslash, vertical bar, question mark, asterisk. *)
Definition invalid_chars : list N :=
  [60; 62; 58; 34; 47; 92; 124; 63; 42]%N.

Definition space : N := 32%N.
Definition underscore : N := 95%N.

Definition is_invalid (c : N) : bool := existsb (N.eqb c) invalid_chars.

(** [re.sub(pattern, '', filename)]: every character of the class is
    deleted. *)
Definition re_sub_invalid (filename : pystr) : pystr :=
  List.filter (fun c => negb (is_invalid c)) filename.

(** [filename.replace(' ', '_')] *)
Definition replace_spaces (filename : pystr) : pystr :=
  map (fun c => if N.eqb c space then underscore else c) filename.

(** [_sanitize_filename], lines 58-65. *)
Definition _sanitize_filename (filename : pystr) : pystr :=
  let filename := re_sub_invalid filename in
  let filename := replace_spaces filename in
  firstn 200 filename.

(** What the sanitizer promises of a single character. *)
Definition clean (c : N) : Prop := ~ In c invalid_chars /\ c <> space.

End Sanitizer.

Import Sanitizer.

(** ** Paths: [pathlib.Path], POSIX flavour

    A path is its root ([], [/] or [//]) and the list of its components;
    parsing a string drops empty components and single dots, as
    [PurePosixPath] does. *)

Module PosixPath.

Definition slash : N := 47%N.
Definition dot : N := 46%N.

Record path := Path { root : pystr; parts : list pystr }.

Fixpoint split_slash (s : pystr) : list pystr :=
  match s with
  | [] => [[]]
  | c :: s' =>
      if N.eqb c slash then [] :: split_slash s'
      else match split_slash s' with
           | [] => [[c]]
           | w :: ws => (c :: w) :: ws
           end
  end.

Definition is_component (x : pystr) : bool :=
  negb (pystr_eqb x [] || pystr_eqb x [dot]).

Definition parse_parts (s : pystr) : list pystr :=
  List.filter is_component (split_slash s).

Fixpoint leading_slashes (s : pystr) : nat :=
  match s with
  | c :: s' => if N.eqb c slash then S (leading_slashes s') else O
  | [] => O
  end.

(** [splitroot]: exactly two leading slashes make the root [//], one or
    more than two make it [/]. *)
Definition parse_root (s : pystr) : pystr :=
  match leading_slashes s with
  | O => []
  | 2%nat => [slash; slash]
  | _ => [slash]
  end.

(** [Path(s)] *)
Definition parse (s : pystr) : path :=
  Path (parse_root s) (parse_parts s).

(** [p / s]: a rooted right operand replaces the left one, any other is
    appended component by component. *)
Definition joinpath (p : path) (s : pystr) : path :=
  let q := parse s in
  match root q with
  | [] => Path (root p) (parts p ++ parts q)
  | _ => q
  end.

Fixpoint join_slash (l : list pystr) : pystr :=
  match l with
  | [] => []
  | [x] => x
  | x :: l' => x ++ slash :: join_slash l'
  end.

(** [str(p)] *)
Definition render (p : path) : pystr :=
  match root p ++ join_slash (parts p) with
  | [] => [dot]
  | s => s
  end.

End PosixPath.

Import PosixPath.

(** ** Exceptions, log records, HTML documents, HTTP responses *)

(** Every exception of the model is a subclass of [Exception], so that
    [except Exception] catches each of them.  [ClientError] stands for any
    exception the HTTP client raises from [get], [text] or [read]. *)
Inductive exn :=
| AttributeError
| FileNotFoundError
| NotADirectoryError
| FileExistsError
| IsADirectoryError
| UnicodeEncodeError
| ClientError (detail : string).

Inductive level := INFO | ERROR.

(** The five messages [downloader.py] logs, with the values their f-strings
    interpolate. *)
Inductive message :=
| TrackAlreadyExists (output_path : path)              (* line 36 *)
| SuccessfullyDownloaded (output_path : path)          (* line 50 *)
| ErrorWithService (name : string) (e : exn)           (* line 53 *)
| FailedToDownload (title : pystr)                     (* line 56 *)
| ErrorIn (label : string) (e : exn).                  (* lines 100, 136, 172 *)

(** An HTML document as [html.parser] hands it to [find]: its elements in
    document order, each with its tag name, its class tokens and its other
    attributes. *)
Record element := Element {
  el_name : pystr;
  el_class : list pystr;
  el_attrs : list (pystr * pystr)
}.

(** What one [content.read(8192)] gives: a chunk, or an exception.  After
    the last event of a body [read] returns the empty chunk. *)
Inductive read_event :=
| Data (chunk : list byte)
| ReadError (e : exn).

Record response := Response {
  status : Z;
  text : exn + list element;      (* [await response.text()], then parsed *)
  content : list read_event
}.

Inductive get_result :=
| GetRaises (e : exn)
| GetResponse (r : response).

(** ** The world: filesystem, logger, remote side *)

Inductive node := File (data : list byte) | Dir.

(** A location is an absolute, resolved sequence of names. *)
Abbreviation location := (list (list N)) (only parsing).

Record world := World {
  fs : gmap (list (list N)) node;   (* what exists, by location *)
  cwd : list (list N);              (* the working directory *)
  log : list (level * message);     (* records emitted so far *)
  requests : list (list N);         (* URLs of the GETs issued so far *)
  pending : list get_result;        (* answers to the GETs still to come *)
  calls : list string               (* ghost: resolvers invoked so far *)
}.

Definition with_fs (f : gmap (list (list N)) node) (w : world) : world :=
  World f (cwd w) (log w) (requests w) (pending w) (calls w).
Definition with_log (l : list (level * message)) (w : world) : world :=
  World (fs w) (cwd w) l (requests w) (pending w) (calls w).
Definition with_net (r : list (list N)) (p : list get_result) (w : world) : world :=
  World (fs w) (cwd w) (log w) r p (calls w).
Definition with_calls (c : list string) (w : world) : world :=
  World (fs w) (cwd w) (log w) (requests w) (pending w) c.

(** ** A state and exception monad *)

Inductive result (A : Type) :=
| Ok (a : A)
| Raise (e : exn).
Arguments Ok {A} a.
Arguments Raise {A} e.

Definition M (A : Type) : Type := world -> result A * world.

Definition ret {A} (a : A) : M A := fun w => (Ok a, w).

Definition raise {A} (e : exn) : M A := fun w => (Raise e, w).

Definition bind {A B} (m : M A) (k : A -> M B) : M B :=
  fun w => match m w with
           | (Ok a, w') => k a w'
           | (Raise e, w') => (Raise e, w')
           end.

(** [try: m except Exception as e: handler e] *)
Definition try_except {A} (m : M A) (handler : exn -> M A) : M A :=
  fun w => match m w with
           | (Ok a, w') => (Ok a, w')
           | (Raise e, w') => handler e w'
           end.

Notation "x <- m ;; k" := (bind m (fun x => k))
  (at level 100, m at level 99, k at level 200, right associativity).
Notation "m ;;; k" := (bind m (fun _ => k))
  (at level 100, k at level 200, right associativity).

(** ** Filesystem operations

    The model has the refusals that come from the shape of the tree: a
    missing component, a file where a directory is wanted, a directory
    where a file is wanted.  What an operating system refuses for other
    reasons (a name that is too long or holds a NUL, missing permissions, a
    full disk) is not in it.  Statements that must hold whatever the calls
    on paths do are made over [download_track_over] below, where these calls
    are left open. *)

Module FS.

Definition dotdot : pystr := [dot; dot].

(** The root directory always exists. *)
Definition node_at (f : gmap (list (list N)) node) (loc : location) : option node :=
  match loc with
  | [] => Some Dir
  | _ => f !! loc
  end.

Definition step_into (c : pystr) (loc : location) : location :=
  if pystr_eqb c dotdot then removelast loc else loc ++ [c].

(** Path resolution, one component at a time: each component is looked up
    in a directory that must exist; two dots go to the parent. *)
Fixpoint walk (f : gmap (list (list N)) node) (loc : location)
    (comps : list pystr) : exn + location :=
  match comps with
  | [] => inr loc
  | c :: cs =>
      match node_at f loc with
      | Some Dir =>
          walk f (step_into c loc) cs
      | Some (File _) => inl NotADirectoryError
      | None => inl FileNotFoundError
      end
  end.

Definition resolve (w : world) (p : path) : exn + location :=
  walk (fs w) (match root p with [] => cwd w | _ => [] end) (parts p).

(** [p.exists()]: resolution errors count as absence. *)
Definition path_exists (p : path) : M bool := fun w =>
  match resolve w p with
  | inr loc => (Ok (bool_decide (is_Some (node_at (fs w) loc))), w)
  | inl _ => (Ok false, w)
  end.

(** [p.mkdir(exist_ok=True)]: no parents are created; an existing
    directory is accepted, an existing file is not. *)
Definition mkdir_exist_ok (p : path) : M unit := fun w =>
  match resolve w p with
  | inl e => (Raise e, w)
  | inr loc =>
      match node_at (fs w) loc with
      | Some Dir => (Ok tt, w)
      | Some (File _) => (Raise FileExistsError, w)
      | None => (Ok tt, with_fs (<[loc := Dir]> (fs w)) w)
      end
  end.

(** [open(p, 'wb')]: creates the file or truncates it; the handle is the
    location it was opened at. *)
Definition open_wb (p : path) : M location := fun w =>
  match resolve w p with
  | inl e => (Raise e, w)
  | inr loc =>
      match node_at (fs w) loc with
      | Some Dir => (Raise IsADirectoryError, w)
      | _ => (Ok loc, with_fs (<[loc := File []]> (fs w)) w)
      end
  end.

Definition append (chunk : list byte) (n : node) : node :=
  match n with
  | File data => File (data ++ chunk)
  | Dir => Dir
  end.

(** [f.write(chunk)] *)
Definition file_write (f : location) (chunk : list byte) : M unit := fun w =>
  (Ok tt, with_fs (alter (append chunk) f (fs w)) w).

(** The content of the regular file at [p], if there is one. *)
Definition read_file (w : world) (p : path) : option (list byte) :=
  match resolve w p with
  | inr loc => match node_at (fs w) loc with
               | Some (File data) => Some data
               | _ => None
               end
  | inl _ => None
  end.

Definition exists_in (w : world) (p : path) : bool :=
  match resolve w p with
  | inr loc => bool_decide (is_Some (node_at (fs w) loc))
  | inl _ => false
  end.

End FS.

Import FS.

(** ** Logger *)

Definition logger_info (m : message) : M unit := fun w =>
  (Ok tt, with_log (log w ++ [(INFO, m)]) w).

Definition logger_error (m : message) : M unit := fun w =>
  (Ok tt, with_log (log w ++ [(ERROR, m)]) w).

(** ** [urllib.parse.quote] with its default [safe='/'] *)

Module Quote.

Definition between (lo hi c : N) : bool := (N.leb lo c && N.leb c hi)%bool.

(** Letters, digits and [_.-~] are never quoted; [/] is safe by default. *)
Definition is_safe (c : N) : bool :=
  (between 65 90 c || between 97 122 c || between 48 57 c
   || existsb (N.eqb c) [95; 46; 45; 126; 47])%N%bool.

Definition utf8 (c : N) : option (list N) :=
  (if c <? 128 then Some [c]
   else if c <? 2048 then Some [192 + c / 64; 128 + c mod 64]
   else if (55296 <=? c) && (c <=? 57343) then None
   else if c <? 65536 then
     Some [224 + c / 4096; 128 + (c / 64) mod 64; 128 + c mod 64]
   else if c <? 1114112 then
     Some [240 + c / 262144; 128 + (c / 4096) mod 64;
           128 + (c / 64) mod 64; 128 + c mod 64]
   else None)%N.

Definition hex_digit (n : N) : N := (if n <? 10 then 48 + n else 55 + n)%N.

Definition quote_byte (b : N) : pystr :=
  if is_safe b then [b] else [37%N; hex_digit (b / 16); hex_digit (b mod 16)].

(** The string is encoded as UTF-8 with [errors='strict'] (a surrogate
    raises), then every byte outside the safe set becomes [%XX]. *)
Fixpoint quote (s : pystr) : exn + pystr :=
  match s with
  | [] => inr []
  | c :: s' =>
      match utf8 c, quote s' with
      | Some bytes, inr q => inr (flat_map quote_byte bytes ++ q)
      | _, _ => inl UnicodeEncodeError
      end
  end.

End Quote.

(** ** BeautifulSoup queries *)

Module Soup.

(** [soup.find(name, {'class': cls})]: the first element, in document
    order, with that tag name and that class among its class tokens. *)
Definition find (soup : list element) (name cls : pystr) : option element :=
  List.find (fun el => pystr_eqb (el_name el) name
                       && existsb (pystr_eqb cls) (el_class el)) soup.

(** [tag.get(key)] *)
Fixpoint get (attrs : list (pystr * pystr)) (key : pystr) : option pystr :=
  match attrs with
  | [] => None
  | (k, v) :: rest => if pystr_eqb k key then Some v else get rest key
  end.

End Soup.

(** ** The downloader *)

Record track := Track { title : pystr; artist : pystr; url : pystr }.

(** [self]: the download directory and whether [__aenter__] has opened the
    session ([self.session] is [None] before). *)
Record downloader := Downloader {
  download_dir : path;
  session : bool
}.

(** [self.session.get(arg)]: the attribute [get] of [self.session] is looked
    up first (it fails on [None]), then the argument is evaluated, then the
    request is issued and answered by the next pending answer. *)
Definition send (u : pystr) : M response := fun w =>
  match pending w with
  | [] => (Raise (ClientError "no answer"), with_net (requests w ++ [u]) [] w)
  | GetRaises e :: rest => (Raise e, with_net (requests w ++ [u]) rest w)
  | GetResponse r :: rest => (Ok r, with_net (requests w ++ [u]) rest w)
  end.

Definition session_get (self : downloader) (arg : M pystr) : M response :=
  (if session self then ret tt else raise AttributeError) ;;;
  u <- arg ;;
  send u.

(** The f-string of lines 70, 106 and 142. *)
Definition conversion_url (prefix u : pystr) : M pystr :=
  match Quote.quote u with
  | inl e => raise e
  | inr quoted => ret (prefix ++ quoted)
  end.

(** [await response.text()] and the parse of it. *)
Definition response_text (r : response) : M (list element) :=
  match text r with
  | inl e => raise e
  | inr soup => ret soup
  end.

(** The loop of lines 92-96: read a chunk, stop at the empty chunk, write. *)
Fixpoint write_chunks (f : location) (body : list read_event) : M unit :=
  match body with
  | [] => ret tt
  | Data [] :: _ => ret tt
  | Data chunk :: rest => file_write f chunk ;;; write_chunks f rest
  | ReadError e :: _ => raise e
  end.

(** The three resolvers have the same body and differ in three constants:
    the conversion endpoint, the class of the download link and the name
    they log under. *)
Record site := Site {
  endpoint : pystr;
  link_class : pystr;
  label : string
}.

Definition scdownloader : site :=
  Site (py "https://scdownloader.io/download?url=") (py "download-btn") "scdownloader".
Definition soundcloudmp3 : site :=
  Site (py "https://soundcloudmp3.org/download?url=") (py "download-button") "soundcloudmp3".
Definition downloadsound : site :=
  Site (py "https://downloadsound.cloud/download?url=") (py "download-link") "downloadsound".

(** The body of the [try] block of a resolver (lines 70-98). *)
Definition resolver_body (s : site) (self : downloader) (u : pystr)
    (output_path : path) : M bool :=
  response <- session_get self (conversion_url (endpoint s) u) ;;
  if negb (Z.eqb (status response) 200) then ret false else
  soup <- response_text response ;;
  match Soup.find soup (py "a") (link_class s) with
  | None => ret false
  | Some download_button =>
      match Soup.get (el_attrs download_button) (py "href") with
      | None | Some [] => ret false
      | Some direct_url =>
          download_response <- session_get self (ret direct_url) ;;
          if negb (Z.eqb (status download_response) 200) then ret false else
          f <- open_wb output_path ;;
          write_chunks f (content download_response) ;;;
          ret true
      end
  end.

(** A resolver: its body under [except Exception], which logs and
    answers [False]. *)
Definition try_site (s : site) (self : downloader) (u : pystr)
    (output_path : path) : M bool :=
  try_except (resolver_body s self u output_path)
             (fun e => logger_error (ErrorIn (label s) e) ;;; ret false).

Definition _try_scdownloader := try_site scdownloader.
Definition _try_soundcloudmp3 := try_site soundcloudmp3.
Definition _try_downloadsound := try_site downloadsound.

(** A bound method of the list [download_services]: its [__name__] and
    what calling it does. *)
Record service := Service {
  svc_name : string;
  svc_run : pystr -> path -> M bool
}.

Definition download_services (self : downloader) : list service :=
  [ Service "_try_scdownloader" (_try_scdownloader self);
    Service "_try_soundcloudmp3" (_try_soundcloudmp3 self);
    Service "_try_downloadsound" (_try_downloadsound self) ].

(** [await service(track['url'], output_path)].  The call is recorded in
    the ghost field [calls], which belongs to the caller: whatever the
    callee does to it is discarded. *)
Definition call_service (s : service) (u : pystr) (output_path : path) : M bool :=
  fun w => match svc_run s u output_path w with
           | (r, w') => (r, with_calls (calls w ++ [svc_name s]) w')
           end.

(** How one iteration of the loop of lines 46-54 ends. *)
Inductive flow := Returned | Continue.

Fixpoint for_services (services : list service) (t : track)
    (output_path : path) : M unit :=
  match services with
  | [] => logger_error (FailedToDownload (title t))            (* line 56 *)
  | svc :: rest =>
      fl <- try_except
              (success <- call_service svc (url t) output_path ;;
               if success
               then logger_info (SuccessfullyDownloaded output_path) ;;; ret Returned
               else ret Continue)
              (fun e => logger_error (ErrorWithService (svc_name svc) e) ;;;
                        ret Continue) ;;
      match fl with
      | Returned => ret tt
      | Continue => for_services rest t output_path
      end
  end.

Definition artist_dir_of (self : downloader) (t : track) : path :=
  joinpath (download_dir self) (_sanitize_filename (artist t)).

Definition output_path_of (self : downloader) (t : track) : path :=
  joinpath (artist_dir_of self t) (_sanitize_filename (title t) ++ py ".mp3").

(** [download_track], lines 27-56, over any list of services. *)
Definition download_track_with (services : list service)
    (self : downloader) (t : track) : M unit :=
  let sanitized_title := _sanitize_filename (title t) in
  let artist_dir := joinpath (download_dir self) (_sanitize_filename (artist t)) in
  mkdir_exist_ok artist_dir ;;;
  let output_path := joinpath artist_dir (sanitized_title ++ py ".mp3") in
  present <- path_exists output_path ;;
  if present
  then logger_info (TrackAlreadyExists output_path)
  else for_services services t output_path.

Definition download_track (self : downloader) (t : track) : M unit :=
  download_track_with (download_services self) self t.

(** ** Vocabulary of the statements *)

Definition logged (lv : level) (m : message) (w : world) : world :=
  with_log (log w ++ [(lv, m)]) w.

(** The bytes the loop of lines 92-96 writes for a body: the chunks up to
    the first empty chunk, the first error or the end. *)
Fixpoint received (body : list read_event) : list byte :=
  match body with
  | [] => []
  | Data [] :: _ => []
  | Data chunk :: rest => chunk ++ received rest
  | ReadError _ :: _ => []
  end.

(** A resolver reports failure when it answers [False] or raises. *)
Definition reports_failure (r : result bool) : bool :=
  match r with
  | Ok true => false
  | _ => true
  end.

(** The world in which the loop goes on after a failed call: a raised
    exception has been logged by line 53. *)
Definition after_failure (name : string) (r : result bool) (w : world) : world :=
  match r with
  | Raise e => logged ERROR (ErrorWithService name e) w
  | Ok _ => w
  end.

(** [fail_all services u out w = Some w1]: called one after the other from
    [w], every service of the list reports failure, and the last one leaves
    the world [w1]. *)
Fixpoint fail_all (services : list service) (u : pystr) (output_path : path)
    (w : world) : option world :=
  match services with
  | [] => Some w
  | s :: rest =>
      match call_service s u output_path w with
      | (r, w') =>
          if reports_failure r
          then fail_all rest u output_path (after_failure (svc_name s) r w')
          else None
      end
  end.

Definition is_terminal_failure (ttl : pystr) (rec : level * message) : bool :=
  match rec with
  | (ERROR, FailedToDownload x) => pystr_eqb x ttl
  | _ => false
  end.

(** How many times the terminal failure of a track was logged. *)
Definition terminal_failures (ttl : pystr) (l : list (level * message)) : nat :=
  length (List.filter (is_terminal_failure ttl) l).

Definition read_error (ev : read_event) : bool :=
  match ev with
  | ReadError _ => true
  | Data _ => false
  end.

(** No body still to be served fails while it is read. *)
Definition bodies_intact (answers : list get_result) : bool :=
  forallb (fun a => match a with
                    | GetResponse r => negb (existsb read_error (content r))
                    | GetRaises _ => true
                    end) answers.

(** The set of directories is the same in both filesystems. *)
Definition dirs_agree (f f' : gmap (list (list N)) node) : Prop :=
  forall loc, node_at f' loc = Some Dir <-> node_at f loc = Some Dir.

Definition same_dirs (w w' : world) : Prop := dirs_agree (fs w) (fs w').

(** The service is one of the resolvers of [self]. *)
Definition from_site (self : downloader) (svc : service) : Prop :=
  exists s, svc_run svc = try_site s self.

(** The four ways a resolver declines without an exception (lines 71-72,
    79-80, 83-84, 88-89), read off the answers the remote side gives. *)
Inductive gives_up (s : site) (self : downloader) (u : pystr) (w : world) : Prop :=
| first_get_not_200 q r rest :
    session self = true -> Quote.quote u = inr q ->
    pending w = GetResponse r :: rest ->
    status r <> 200%Z ->
    gives_up s self u w
| element_absent q r rest soup :
    session self = true -> Quote.quote u = inr q ->
    pending w = GetResponse r :: rest ->
    status r = 200%Z -> text r = inr soup ->
    Soup.find soup (py "a") (link_class s) = None ->
    gives_up s self u w
| link_absent q r rest soup button :
    session self = true -> Quote.quote u = inr q ->
    pending w = GetResponse r :: rest ->
    status r = 200%Z -> text r = inr soup ->
    Soup.find soup (py "a") (link_class s) = Some button ->
    Soup.get (el_attrs button) (py "href") = None \/
    Soup.get (el_attrs button) (py "href") = Some [] ->
    gives_up s self u w
| second_get_not_200 q r rest soup button direct_url r2 rest2 :
    session self = true -> Quote.quote u = inr q ->
    pending w = GetResponse r :: rest ->
    status r = 200%Z -> text r = inr soup ->
    Soup.find soup (py "a") (link_class s) = Some button ->
    Soup.get (el_attrs button) (py "href") = Some direct_url ->
    direct_url <> [] ->
    rest = GetResponse r2 :: rest2 ->
    status r2 <> 200%Z ->
    gives_up s self u w.

(** ** Concrete inputs *)

Module Sample.

Definition my_song : track :=
  Track (py "My Song") (py "DJ Test") (py "https://example.com/t/1").

Definition self : downloader := Downloader (parse (py "downloads/")) true.

Definition home : location := [py "home"].

(** A working directory [/home] that holds the directory [downloads]. *)
Definition disk : gmap (list (list N)) node :=
  <[ [py "home"; py "downloads"] := Dir ]> {[ [py "home"] := Dir ]}.

Definition link_to (cls href : string) : element :=
  Element (py "a") [py cls] [(py "href", py href)].

Definition page (cls : string) : response :=
  Response 200 (inr [Element (py "div") [] []; link_to cls "https://cdn.example/a.mp3"]) [].

Definition audio (body : list read_event) : response :=
  Response 200 (inr []) body.

Definition not_found : response := Response 404 (inr []) [].

Definition start (answers : list get_result) : world :=
  World disk home [] [] answers [].

(** The first service serves the file. *)
Definition first_serves : world :=
  start [GetResponse (page "download-btn");
         GetResponse (audio [Data [x49; x44; x33]; Data [x04]])].

(** The first service breaks off after two bytes, the second one serves
    the file. *)
Definition second_serves : world :=
  start [GetResponse (page "download-btn");
         GetResponse (audio [Data [x49; x44]; ReadError (ClientError "payload")]);
         GetResponse (page "download-button");
         GetResponse (audio [Data [x66; x4c; x61; x43]])].

(** The first service breaks off after two bytes, the others decline. *)
Definition broken_stream : world :=
  start [GetResponse (page "download-btn");
         GetResponse (audio [Data [x49; x44]; ReadError (ClientError "payload")]);
         GetResponse not_found;
         GetRaises (ClientError "connect")].

(** Every service declines. *)
Definition all_decline : world :=
  start [GetResponse not_found; GetResponse (page "other"); GetRaises (ClientError "connect")].

(** No directory [downloads] in the working directory. *)
Definition no_root : world :=
  World {[ [py "home"] := Dir ]} home [] [] [] [].

Definition output_path : path := output_path_of self my_song.

(** The track is on disk already. *)
Definition already_there : world :=
  World (<[ [py "home"; py "downloads"; py "DJ_Test"; py "My_Song.mp3"] := File [x49; x44; x33] ]>
          (<[ [py "home"; py "downloads"; py "DJ_Test"] := Dir ]> disk))
        home [] [] [GetResponse (page "download-btn")] [].

(** A track whose artist is made of deleted characters only. *)
Definition anonymous : track :=
  Track (py "My Song") (py "?*:") (py "https://example.com/t/2").

Definition svc1 : service := Service "_try_scdownloader" (_try_scdownloader self).
Definition svc2 : service := Service "_try_soundcloudmp3" (_try_soundcloudmp3 self).
Definition svc3 : service := Service "_try_downloadsound" (_try_downloadsound self).

(** The worlds a run goes through: after [mkdir], after the failures of
    a list of services, after the call of one service. *)
Definition after_mkdir (t : track) (w : world) : world :=
  snd (mkdir_exist_ok (artist_dir_of self t) w).

Definition after_failures (pre : list service) (t : track) (w : world) : world :=
  match fail_all pre (url t) (output_path_of self t) w with
  | Some w1 => w1
  | None => w
  end.

Definition after_call (s : service) (t : track) (w : world) : world :=
  snd (call_service s (url t) (output_path_of self t) w).

End Sample.

(** ** [main.py]: the directories, the collected tracks, the loop over them *)

Module Main.

(** The loop of lines 48-50 (and of lines 22-24, run at import time). *)
Fixpoint mkdir_each (directories : list pystr) : M unit :=
  match directories with
  | [] => ret tt
  | directory :: rest => mkdir_exist_ok (parse directory) ;;; mkdir_each rest
  end.

(** [setup_directories], lines 46-50. *)
Definition setup_directories : M unit :=
  mkdir_each [py "downloads"; py "logs"; py "data"].

(** [SoundCloudDownloader(download_dir)]: no session yet (line 14). *)
Definition __init__ (download_dir : path) : downloader :=
  Downloader download_dir false.

(** [__aenter__], lines 19-21: the session is opened. *)
Definition __aenter__ (self : downloader) : downloader :=
  Downloader (download_dir self) true.

(** A parsed document as a tree: strings and tags with their name, class
    tokens, other attributes and children. *)
Inductive html :=
| Text (s : pystr)
| Tag (name : pystr) (classes : list pystr) (attrs : list (pystr * pystr))
      (children : list html).

(** The tags and strings below a node, in document order. *)
Fixpoint descendants (h : html) : list html :=
  match h with
  | Text _ => []
  | Tag _ _ _ children => flat_map (fun c => c :: descendants c) children
  end.

Definition matches (name cls : pystr) (h : html) : bool :=
  match h with
  | Tag n classes _ _ => pystr_eqb n name && existsb (pystr_eqb cls) classes
  | Text _ => false
  end.

(** [h.find_all(name, class_=cls)] *)
Definition find_all (h : html) (name cls : pystr) : list html :=
  List.filter (matches name cls) (descendants h).

(** [h.find(name, class_=cls)]: the first match, or [None]. *)
Definition find (h : html) (name cls : pystr) : option html :=
  List.find (matches name cls) (descendants h).

(** [h.text]: the strings below the node, concatenated. *)
Fixpoint get_text (h : html) : pystr :=
  match h with
  | Text s => s
  | Tag _ _ _ children => flat_map get_text children
  end.

(** The characters [str.strip()] removes: those Python counts as
    whitespace. *)
Definition is_whitespace (c : N) : bool :=
  ((9 <=? c) && (c <=? 13) || (28 <=? c) && (c <=? 32)
   || (c =? 133) || (c =? 160) || (c =? 5760)
   || (8192 <=? c) && (c <=? 8202)
   || (c =? 8232) || (c =? 8233) || (c =? 8239) || (c =? 8287)
   || (c =? 12288))%N.

Fixpoint lstrip (s : pystr) : pystr :=
  match s with
  | c :: s' => if is_whitespace c then lstrip s' else s
  | [] => []
  end.

Definition rstrip (s : pystr) : pystr := rev (lstrip (rev s)).

(** [s.strip()] *)
Definition strip (s : pystr) : pystr := rstrip (lstrip s).

(** What the body of the [try] of lines 162-164 can raise: [None] has no
    attribute [text], and a tag without the attribute has no [href]. *)
Inductive lookup_error :=
| NoneHasNoText
| KeyError (key : pystr).

(** [tag[key]] *)
Definition subscript (h : html) (key : pystr) : lookup_error + pystr :=
  match h with
  | Tag _ _ attrs _ =>
      match Soup.get attrs key with
      | Some v => inr v
      | None => inl (KeyError key)
      end
  | Text _ => inl (KeyError key)
  end.

(** Lines 162-170: title, then url, then artist. *)
Definition extract_one (item : html) : lookup_error + track :=
  match find item (py "a") (py "trackItem__trackTitle") with
  | None => inl NoneHasNoText
  | Some a =>
      let title := strip (get_text a) in
      match find item (py "a") (py "trackItem__trackTitle") with
      | None => inl NoneHasNoText
      | Some a' =>
          match subscript a' (py "href") with
          | inl e => inl e
          | inr url =>
              match find item (py "a") (py "trackItem__username") with
              | None => inl NoneHasNoText
              | Some b => inr (Track title (strip (get_text b)) url)
              end
          end
      end
  end.

(** The records of the logger of [main.py]. *)
Inductive main_message :=
| ErrorExtractingTrackInfo (e : lookup_error)            (* line 172 *)
| ErrorDownloadingTrack (title : pystr) (e : exn).       (* line 184 *)

(** The loop of lines 160-173: the tracks appended and the records
    logged, both in the order of the items. *)
Fixpoint extract_each (items : list html)
    : list track * list (level * main_message) :=
  match items with
  | [] => ([], [])
  | item :: rest =>
      let (tracks, records) := extract_each rest in
      match extract_one item with
      | inr t => (t :: tracks, records)
      | inl e => (tracks, (ERROR, ErrorExtractingTrackInfo e) :: records)
      end
  end.

(** [_extract_track_info], lines 155-175. *)
Definition _extract_track_info (soup : html)
    : list track * list (level * main_message) :=
  extract_each (find_all soup (py "div") (py "trackItem")).

(** The world of [main.py]: the world of the downloader and the records of
    its own logger. *)
Record app := App {
  sys : world;
  main_log : list (level * main_message)
}.

(** The loop of lines 180-184: an exception of [download_track] is logged
    and the loop goes on. *)
Fixpoint for_tracks (dl : downloader) (tracks : list track)
    (a : app) : app :=
  match tracks with
  | [] => a
  | t :: rest =>
      match download_track dl t (sys a) with
      | (Ok _, w') => for_tracks dl rest (App w' (main_log a))
      | (Raise e, w') =>
          for_tracks dl rest
            (App w' (main_log a ++ [(ERROR, ErrorDownloadingTrack (title t) e)]))
      end
  end.

(** [process_tracks], lines 177-184. *)
Definition process_tracks (download_dir : path) (tracks : list track)
    (a : app) : app :=
  for_tracks (__aenter__ (__init__ download_dir)) tracks a.

End Main.

(** ** [download_track] over any behaviour of the calls on paths

    Lines 27-56 again, with the two calls made on paths before the loop,
    [artist_dir.mkdir(exist_ok=True)] (line 31) and [output_path.exists()]
    (line 35), left open: they belong to [pathlib] and to the operating
    system, and may answer or raise in any way.  [download_track_with] is
    the instance at [mkdir_exist_ok] and [path_exists]. *)
Definition download_track_over
    (mkdir : path -> M unit) (exists_ : path -> M bool)
    (services : list service) (self : downloader) (t : track) : M unit :=
  let sanitized_title := _sanitize_filename (title t) in
  let artist_dir := joinpath (download_dir self) (_sanitize_filename (artist t)) in
  mkdir artist_dir ;;;
  let output_path := joinpath artist_dir (sanitized_title ++ py ".mp3") in
  present <- exists_ output_path ;;
  if present
  then logger_info (TrackAlreadyExists output_path)
  else for_services services t output_path.

(** ** More vocabulary *)

(** The exception that ends the loop of lines 92-96 on a body, if any: the
    first failing read before the empty chunk or the end. *)
Fixpoint first_error (body : list read_event) : option exn :=
  match body with
  | [] => None
  | Data [] :: _ => None
  | Data _ :: rest => first_error rest
  | ReadError e :: _ => Some e
  end.

(** [w'] has issued at most [n] requests more than [w]. *)
Definition at_most (n : nat) (w w' : world) : Prop :=
  exists l, requests w' = requests w ++ l /\ (length l <= n)%nat.

(** The names of the three resolvers, in the order of lines 40-44. *)
Definition service_names : list string :=
  ["_try_scdownloader"; "_try_soundcloudmp3"; "_try_downloadsound"]%string.

(** Every directory of [f] is a directory of [f']. *)
Definition dirs_grow (f f' : gmap (list (list N)) node) : Prop :=
  forall loc, node_at f loc = Some Dir -> node_at f' loc = Some Dir.

(** Everything that exists in [f] exists unchanged in [f']. *)
Definition extends (f f' : gmap (list (list N)) node) : Prop :=
  forall loc n, node_at f loc = Some n -> node_at f' loc = Some n.

(** A string that [Path] reads as one relative component, not the parent. *)
Definition plain_name (d : pystr) : Prop :=
  parse d = Path [] [d] /\ pystr_eqb d dotdot = false.

(** No whitespace at either end. *)
Definition stripped (s : pystr) : Prop :=
  match s with
  | [] => True
  | c :: _ => Main.is_whitespace c = false /\ Main.is_whitespace (List.last s c) = false
  end.

(** ** Concrete inputs for [main.py] *)

Module MainSample.

(** [downloads] is there, but a regular file has the name of the artist. *)
Definition blocked : world :=
  World (<[ [py "home"; py "downloads"; py "DJ_Test"] := File [] ]> Sample.disk)
        Sample.home [] [] [GetResponse (Sample.page "download-btn")] [].

Definition anchor (cls : string) (attrs : list (list N * list N)) (txt : string)
    : Main.html :=
  Main.Tag (py "a") [py cls] attrs [Main.Text (py txt)].

(** Three items: a complete one, one whose title has no [href], one
    without a title. *)
Definition likes_page : Main.html :=
  Main.Tag (py "[document]") [] []
    [ Main.Tag (py "div") [py "trackItem"] []
        [ anchor "trackItem__trackTitle" [(py "href", py "/dj-test/my-song")] "  My Song ";
          anchor "trackItem__username" [] " DJ Test" ];
      Main.Tag (py "div") [py "trackItem"] []
        [ anchor "trackItem__trackTitle" [] "No link";
          anchor "trackItem__username" [] "Somebody" ];
      Main.Tag (py "div") [py "trackItem"; py "promoted"] []
        [ Main.Tag (py "span") [] [] [Main.Text (py "sponsored")] ] ].

End MainSample.

(** * Proofs *)

(** ** Sanitizer *)

Section SanitizerFacts.

Lemma is_invalid_In c : is_invalid c = true <-> In c invalid_chars.
Proof.
  unfold is_invalid. rewrite existsb_exists. split.
  - intros (x & Hx & Heq). apply N.eqb_eq in Heq. now subst.
  - intros H. exists c. split; [assumption | apply N.eqb_refl].
Qed.

Lemma replaced_char_clean c :
  is_invalid c = false ->
  clean (if N.eqb c space then underscore else c).
Proof.
  intros Hc. destruct (N.eqb_spec c space) as [-> | Hne].
  - split; [| discriminate].
    rewrite <- is_invalid_In. now vm_compute.
  - split; [| assumption].
    rewrite <- is_invalid_In. now rewrite Hc.
Qed.

Lemma replace_after_sub_clean s :
  Forall clean (replace_spaces (re_sub_invalid s)).
Proof.
  induction s as [| c s IH]; simpl; [constructor |].
  destruct (is_invalid c) eqn:Hc; simpl; [exact IH |].
  constructor; [now apply replaced_char_clean | exact IH].
Qed.

Lemma Forall_firstn_keep {A} (P : A -> Prop) n (l : list A) :
  Forall P l -> Forall P (firstn n l).
Proof.
  intros H. revert n. induction H; intros [| n]; simpl; constructor; auto.
Qed.

Lemma sanitize_clean s : Forall clean (_sanitize_filename s).
Proof. apply Forall_firstn_keep, replace_after_sub_clean. Qed.

Lemma sanitize_length s : (length (_sanitize_filename s) <= 200)%nat.
Proof. unfold _sanitize_filename. rewrite length_firstn. lia. Qed.

Lemma re_sub_clean_id s : Forall clean s -> re_sub_invalid s = s.
Proof.
  induction 1 as [| c s [Hc _] _ IH]; simpl; [reflexivity |].
  destruct (is_invalid c) eqn:E.
  - apply is_invalid_In in E. contradiction.
  - simpl. now rewrite IH.
Qed.

Lemma replace_clean_id s : Forall clean s -> replace_spaces s = s.
Proof.
  induction 1 as [| c s [_ Hc] _ IH]; simpl; [reflexivity |].
  destruct (N.eqb_spec c space); [contradiction | now rewrite IH].
Qed.

Lemma sanitize_fixpoint s :
  Forall clean s -> (length s <= 200)%nat -> _sanitize_filename s = s.
Proof.
  intros Hc Hl. unfold _sanitize_filename.
  rewrite re_sub_clean_id, replace_clean_id by assumption.
  now apply firstn_all2.
Qed.

(** A sanitized string holds no slash. *)
Lemma sanitize_no_slash s : Forall (fun c => c <> slash) (_sanitize_filename s).
Proof.
  eapply List.Forall_impl; [| apply sanitize_clean].
  intros c [Hc _] ->. apply Hc. vm_compute. tauto.
Qed.

End SanitizerFacts.

(** ** Paths *)

Section PathFacts.

Lemma split_slash_free s :
  Forall (fun c => c <> slash) s -> split_slash s = [s].
Proof.
  induction 1 as [| c s Hc _ IH]; simpl; [reflexivity |].
  destruct (N.eqb_spec c slash); [contradiction |]. now rewrite IH.
Qed.

Lemma leading_slashes_free s :
  Forall (fun c => c <> slash) s -> leading_slashes s = O.
Proof.
  destruct 1 as [| c s Hc _]; simpl; [reflexivity |].
  now destruct (N.eqb_spec c slash).
Qed.

(** A string without a slash is at most one component. *)
Lemma parse_segment s :
  Forall (fun c => c <> slash) s ->
  parse s = Path [] (if is_component s then [s] else []).
Proof.
  intros H. unfold parse, parse_root, parse_parts.
  rewrite leading_slashes_free, split_slash_free by assumption.
  simpl. now destruct (is_component s).
Qed.

Lemma joinpath_segment p s :
  Forall (fun c => c <> slash) s ->
  joinpath p s = Path (root p) (parts p ++ if is_component s then [s] else []).
Proof.
  intros H. unfold joinpath. now rewrite parse_segment.
Qed.

Lemma mp3_no_slash : Forall (fun c => c <> slash) (py ".mp3").
Proof. repeat constructor; discriminate. Qed.

Lemma file_name_no_slash s :
  Forall (fun c => c <> slash) (_sanitize_filename s ++ py ".mp3").
Proof.
  apply List.Forall_app. split; [apply sanitize_no_slash | apply mp3_no_slash].
Qed.

Lemma file_name_is_component s : is_component (s ++ py ".mp3") = true.
Proof.
  unfold is_component, pystr_eqb.
  rewrite !bool_decide_eq_false_2; [reflexivity | |].
  - intros H. apply (f_equal (@length N)) in H.
    rewrite length_app in H. simpl in H. lia.
  - intros H. apply (f_equal (@length N)) in H.
    rewrite length_app in H. simpl in H. lia.
Qed.

Lemma file_name_not_dotdot s : pystr_eqb (s ++ py ".mp3") dotdot = false.
Proof.
  unfold pystr_eqb. apply bool_decide_eq_false_2.
  intros H. apply (f_equal (@length N)) in H.
  rewrite length_app in H. simpl in H. lia.
Qed.

Lemma artist_dir_shape self t :
  artist_dir_of self t =
  Path (root (download_dir self))
       (parts (download_dir self) ++ parse_parts (_sanitize_filename (artist t))).
Proof.
  unfold artist_dir_of. rewrite joinpath_segment by apply sanitize_no_slash.
  f_equal. f_equal. unfold parse_parts.
  rewrite split_slash_free by apply sanitize_no_slash.
  simpl. now destruct (is_component _).
Qed.

Lemma output_path_shape self t :
  output_path_of self t =
  Path (root (artist_dir_of self t))
       (parts (artist_dir_of self t) ++ [_sanitize_filename (title t) ++ py ".mp3"]).
Proof.
  unfold output_path_of.
  rewrite joinpath_segment by apply file_name_no_slash.
  now rewrite file_name_is_component.
Qed.

End PathFacts.

(** ** Filesystem *)

Section FSFacts.

Implicit Types (f : gmap (list (list N)) node) (loc : list (list N)).

Lemma not_dir_not_root f loc : node_at f loc <> Some Dir -> loc <> [].
Proof. intros H ->. now apply H. Qed.

Lemma node_at_insert_eq f loc n : loc <> [] -> node_at (<[loc := n]> f) loc = Some n.
Proof.
  destruct loc; [congruence |]. intros _. simpl. apply lookup_insert_eq.
Qed.

Lemma node_at_insert_ne f loc l n :
  loc <> l -> node_at (<[loc := n]> f) l = node_at f l.
Proof.
  intros Hne. destruct l; [reflexivity |]. simpl. now apply lookup_insert_ne.
Qed.

Lemma dirs_agree_refl f : dirs_agree f f.
Proof. intros l. reflexivity. Qed.

Lemma dirs_agree_trans f1 f2 f3 :
  dirs_agree f1 f2 -> dirs_agree f2 f3 -> dirs_agree f1 f3.
Proof. intros H12 H23 l. etransitivity; [apply H23 | apply H12]. Qed.

(** Creating or truncating a regular file changes no directory. *)
Lemma dirs_agree_insert_file f loc data :
  node_at f loc <> Some Dir -> dirs_agree f (<[loc := File data]> f).
Proof.
  intros Hnd l. destruct (decide (loc = l)) as [<- | Hne].
  - rewrite node_at_insert_eq by eauto using not_dir_not_root.
    split; [discriminate | contradiction].
  - now rewrite node_at_insert_ne.
Qed.

Lemma walk_dirs_agree f f' start comps loc :
  dirs_agree f f' -> walk f start comps = inr loc -> walk f' start comps = inr loc.
Proof.
  intros Hag. revert start. induction comps as [| c cs IH]; intros start; simpl.
  - trivial.
  - destruct (node_at f start) as [[d |] |] eqn:E; try discriminate.
    apply Hag in E. rewrite E. apply IH.
Qed.

Lemma walk_snoc f start comps c :
  walk f start (comps ++ [c]) =
  match walk f start comps with
  | inl e => inl e
  | inr l1 => match node_at f l1 with
              | Some Dir => inr (step_into c l1)
              | Some (File _) => inl NotADirectoryError
              | None => inl FileNotFoundError
              end
  end.
Proof.
  revert start. induction comps as [| c' cs IH]; intros start; simpl.
  - destruct (node_at f start) as [[d |] |]; reflexivity.
  - destruct (node_at f start) as [[d |] |]; try reflexivity. apply IH.
Qed.

Lemma with_fs_same w : with_fs (fs w) w = w.
Proof. now destruct w. Qed.

(** Appending to an open file. *)
Lemma alter_append f loc data chunk :
  f !! loc = Some (File data) ->
  alter (append chunk) loc f = <[loc := File (data ++ chunk)]> f.
Proof.
  intros H. apply map_eq. intros l. destruct (decide (loc = l)) as [<- | Hne].
  - rewrite lookup_alter_eq, lookup_insert_eq, H. reflexivity.
  - rewrite lookup_alter_ne, lookup_insert_ne by assumption. reflexivity.
Qed.

(** The write loop appends exactly the received bytes, whether it ends at
    the end of the body or on an error. *)
Lemma write_chunks_appends body : forall loc data w,
  fs w !! loc = Some (File data) ->
  exists r,
    write_chunks loc body w =
    (r, with_fs (<[loc := File (data ++ received body)]> (fs w)) w) /\
    (r = Ok tt \/ (exists e, r = Raise e /\ In (ReadError e) body)).
Proof.
  induction body as [| ev rest IH]; intros loc data w Hf; simpl.
  - exists (Ok tt). rewrite app_nil_r, insert_id, with_fs_same by assumption. auto.
  - destruct ev as [[| b chunk] | e].
    + exists (Ok tt). rewrite app_nil_r, insert_id, with_fs_same by assumption. auto.
    + unfold bind at 1. unfold file_write at 1.
      rewrite (alter_append _ _ data) by assumption.
      set (w1 := with_fs _ w).
      destruct (IH loc (data ++ b :: chunk) w1) as (r & Hr & Hok).
      { unfold w1. simpl. apply lookup_insert_eq. }
      exists r. rewrite Hr. unfold w1. simpl. rewrite insert_insert_eq.
      rewrite <- app_assoc. split; [reflexivity |].
      destruct Hok as [-> | (e & -> & Hin)]; [now left | right; eauto].
    + exists (Raise e). unfold raise.
      rewrite app_nil_r, insert_id, with_fs_same by assumption.
      split; [reflexivity | right; eauto].
Qed.

Lemma write_chunks_intact body loc w r w' :
  existsb read_error body = false ->
  write_chunks loc body w = (r, w') -> r = Ok tt.
Proof.
  revert w. induction body as [| ev rest IH]; intros w Hb; simpl.
  - unfold ret. congruence.
  - destruct ev as [[| b chunk] | e]; simpl in Hb.
    + unfold ret. congruence.
    + unfold bind at 1. unfold file_write at 1. apply IH, Hb.
    + discriminate.
Qed.

End FSFacts.

(** ** Resolvers *)

Section ResolverFacts.

(** Opening the destination and streaming a body into it. *)
Lemma stream_unresolved out body w e :
  resolve w out = inl e ->
  (f <- open_wb out ;; write_chunks f body ;;; ret true) w = (Raise e, w).
Proof. intros H. unfold bind, open_wb. now rewrite H. Qed.

Lemma stream_directory out body w loc :
  resolve w out = inr loc -> node_at (fs w) loc = Some Dir ->
  (f <- open_wb out ;; write_chunks f body ;;; ret true) w
  = (Raise IsADirectoryError, w).
Proof. intros H Hd. unfold bind, open_wb. now rewrite H, Hd. Qed.

Lemma stream_file out body w loc :
  resolve w out = inr loc -> node_at (fs w) loc <> Some Dir ->
  exists r,
    (f <- open_wb out ;; write_chunks f body ;;; ret true) w
    = (r, with_fs (<[loc := File (received body)]> (fs w)) w) /\
    (r = Ok true \/ exists e, r = Raise e /\ In (ReadError e) body).
Proof.
  intros H Hnd.
  destruct (write_chunks_appends body loc [] (with_fs (<[loc := File []]> (fs w)) w))
    as (r & Hr & Hcase).
  { simpl. apply lookup_insert_eq. }
  simpl in Hr. rewrite insert_insert_eq in Hr.
  assert (Hopen : open_wb out w = (Ok loc, with_fs (<[loc := File []]> (fs w)) w)).
  { unfold open_wb. rewrite H.
    destruct (node_at (fs w) loc) as [[d |] |]; congruence. }
  unfold bind. rewrite Hopen, Hr.
  destruct Hcase as [-> | (e & -> & Hin)].
  - exists (Ok true). unfold ret. auto.
  - exists (Raise e). split; [reflexivity | right; eauto].
Qed.

(** The argument of a request is evaluated without touching the world. *)
Lemma conversion_url_pure prefix u w : exists x, conversion_url prefix u w = (x, w).
Proof. unfold conversion_url. destruct (Quote.quote u); eexists; reflexivity. Qed.

Lemma ret_pure {A} (a : A) w : exists x, ret a w = (x, w).
Proof. eexists; reflexivity. Qed.

(** A request leaves the filesystem and the log alone and consumes at
    most one pending answer; when it returns, it returns that answer. *)
Lemma session_get_outcome self arg w r w' :
  (forall w0, exists x, arg w0 = (x, w0)) ->
  session_get self arg w = (r, w') ->
  fs w' = fs w /\ log w' = log w /\ cwd w' = cwd w /\ calls w' = calls w /\
  ((exists e, r = Raise e /\ exists k, pending w' = skipn k (pending w)) \/
   (exists resp, r = Ok resp /\ pending w = GetResponse resp :: pending w')).
Proof.
  intros Harg. unfold session_get, bind, ret, raise, send.
  destruct (session self).
  - destruct (Harg w) as [x Hx]. rewrite Hx. destruct x as [target | e].
    + destruct (pending w) as [| [e | resp] rest] eqn:Hp;
        intros [= <- <-]; simpl; repeat split; try reflexivity.
      * left. eexists. split; [reflexivity |]. now exists 0%nat.
      * left. eexists. split; [reflexivity |]. now exists 1%nat.
      * right. eexists. split; reflexivity.
    + intros [= <- <-]. repeat split; try reflexivity.
      left. eexists. split; [reflexivity |]. now exists 0%nat.
  - intros [= <- <-]. repeat split; try reflexivity.
    left. eexists. split; [reflexivity |]. now exists 0%nat.
Qed.

Lemma bind_inv {A B} (m : M A) (k : A -> M B) w r w' :
  bind m k w = (r, w') ->
  (exists a w1, m w = (Ok a, w1) /\ k a w1 = (r, w')) \/
  (exists e, m w = (Raise e, w') /\ r = Raise e).
Proof.
  unfold bind. destruct (m w) as [[a | e] w1]; intros H.
  - left. eauto.
  - right. injection H as <- <-. eauto.
Qed.

(** What one run of the body of a resolver does.  Either the destination
    is untouched and the body does not answer [True], or the body was
    served two answers, opened the destination and left in it exactly the
    bytes received of the second one. *)
Lemma resolver_body_outcome s self u out w r w' :
  resolver_body s self u out w = (r, w') ->
  cwd w' = cwd w /\ calls w' = calls w /\ log w' = log w /\
  (exists k, pending w' = skipn k (pending w)) /\
  ((r <> Ok true /\ fs w' = fs w) \/
   (exists page download loc,
      pending w = GetResponse page :: GetResponse download :: pending w' /\
      resolve w out = inr loc /\
      node_at (fs w) loc <> Some Dir /\
      fs w' = <[loc := File (received (content download))]> (fs w) /\
      (r = Ok true \/ exists e, r = Raise e /\ In (ReadError e) (content download)))).
Proof.
  unfold resolver_body. intros H.
  assert (Hskip : forall (k : nat) (x : get_result) (l rest : list get_result),
            l = x :: rest -> skipn k rest = skipn (S k) l) by (now intros k x l rest ->).
  apply bind_inv in H as [(page & w1 & Hget & H) | (e & Hget & ->)].
  2:{ apply session_get_outcome in Hget as (Hfs & Hlog & Hcwd & Hcalls & Hp);
        [| apply conversion_url_pure].
      destruct Hp as [(e' & _ & Hk) | (resp & [=] & _)].
      split_and!; [assumption .. | left; split; [discriminate | assumption]]. }
  apply session_get_outcome in Hget as (Hfs & Hlog & Hcwd & Hcalls & Hp);
    [| apply conversion_url_pure].
  destruct Hp as [(e' & [=] & _) | (resp & [= <-] & Hp1)].
  assert (Hquiet : r <> Ok true -> w' = w1 ->
    cwd w' = cwd w /\ calls w' = calls w /\ log w' = log w /\
    (exists k, pending w' = skipn k (pending w)) /\
    ((r <> Ok true /\ fs w' = fs w) \/
     (exists page download loc,
        pending w = GetResponse page :: GetResponse download :: pending w' /\
        resolve w out = inr loc /\
        node_at (fs w) loc <> Some Dir /\
        fs w' = <[loc := File (received (content download))]> (fs w) /\
        (r = Ok true \/ exists e, r = Raise e /\ In (ReadError e) (content download))))).
  { intros Hr ->. split_and!; [assumption .. | | left; split; assumption].
    exists 1%nat. now rewrite Hp1. }
  destruct (negb (status page =? 200)%Z) eqn:Hst.
  { injection H as <- <-. now apply Hquiet. }
  apply bind_inv in H as [(soup & w2 & Htext & H) | (e & Htext & ->)].
  2:{ unfold response_text in Htext. destruct (text page); [| discriminate].
      injection Htext as <- <-. now apply Hquiet. }
  unfold response_text in Htext. destruct (text page) as [| doc]; [discriminate |].
  injection Htext as <- <-.
  destruct (Soup.find doc (py "a") (link_class s)) as [button |].
  2:{ injection H as <- <-. now apply Hquiet. }
  destruct (Soup.get (el_attrs button) (py "href")) as [[| c direct] |].
  1,3: injection H as <- <-; now apply Hquiet.
  assert (Hlate : forall k, r <> Ok true -> fs w' = fs w1 -> log w' = log w1 ->
    cwd w' = cwd w1 -> calls w' = calls w1 -> pending w' = skipn k (pending w1) ->
    cwd w' = cwd w /\ calls w' = calls w /\ log w' = log w /\
    (exists k, pending w' = skipn k (pending w)) /\
    ((r <> Ok true /\ fs w' = fs w) \/
     (exists page download loc,
        pending w = GetResponse page :: GetResponse download :: pending w' /\
        resolve w out = inr loc /\
        node_at (fs w) loc <> Some Dir /\
        fs w' = <[loc := File (received (content download))]> (fs w) /\
        (r = Ok true \/ exists e, r = Raise e /\ In (ReadError e) (content download))))).
  { intros k Hr Hf Hl Hc Hca Hk.
    split_and!; [congruence .. | | left; split; [assumption | congruence]].
    exists (S k). rewrite Hk. now apply Hskip with (x := GetResponse page). }
  apply bind_inv in H as [(download & w2 & Hget2 & H) | (e & Hget2 & ->)].
  2:{ apply session_get_outcome in Hget2 as (Hfs2 & Hlog2 & Hcwd2 & Hcalls2 & Hp2);
        [| intros; apply ret_pure].
      destruct Hp2 as [(e' & _ & k & Hk) | (resp & [=] & _)].
      now apply (Hlate k). }
  apply session_get_outcome in Hget2 as (Hfs2 & Hlog2 & Hcwd2 & Hcalls2 & Hp2);
    [| intros; apply ret_pure].
  destruct Hp2 as [(e' & [=] & _) | (resp & [= <-] & Hp2)].
  assert (Hk2 : pending w2 = skipn 1 (pending w1)) by now rewrite Hp2.
  destruct (negb (status download =? 200)%Z) eqn:Hst2.
  { injection H as <- <-. now apply (Hlate 1%nat). }
  assert (Hres : resolve w2 out = resolve w out).
  { unfold resolve. now rewrite Hfs2, Hfs, Hcwd2, Hcwd. }
  destruct (resolve w2 out) as [e | loc] eqn:Hr2.
  { rewrite (stream_unresolved _ _ _ _ Hr2) in H. injection H as <- <-.
    now apply (Hlate 1%nat). }
  assert (Hkind : node_at (fs w2) loc = Some Dir \/ node_at (fs w2) loc <> Some Dir)
    by (destruct (node_at (fs w2) loc) as [[d |] |]; auto; right; discriminate).
  destruct Hkind as [Hd | Hnd].
  { rewrite (stream_directory _ _ _ _ Hr2 Hd) in H. injection H as <- <-.
    now apply (Hlate 1%nat). }
  destruct (stream_file _ (content download) _ _ Hr2 Hnd) as (r0 & Hrun & Hcase).
  rewrite Hrun in H. injection H as <- <-. simpl.
  split_and!; [congruence .. | | ].
  - exists 2%nat. rewrite Hp1, Hp2. reflexivity.
  - right. exists page, download, loc.
    split_and!; [congruence | congruence | | congruence | exact Hcase].
    rewrite <- Hfs, <- Hfs2. exact Hnd.
Qed.

(** What one call of a resolver does: it always answers, it logs at most
    one record, under its own name and only with [False], and it touches
    the destination only after two answers. *)
Lemma try_site_outcome s self u out w r w' :
  try_site s self u out w = (r, w') ->
  exists b, r = Ok b /\
    cwd w' = cwd w /\ calls w' = calls w /\
    (exists k, pending w' = skipn k (pending w)) /\
    (log w' = log w \/
     (b = false /\ exists e, log w' = log w ++ [(ERROR, ErrorIn (label s) e)])) /\
    ((b = false /\ fs w' = fs w) \/
     (exists page download loc,
        pending w = GetResponse page :: GetResponse download :: pending w' /\
        resolve w out = inr loc /\
        node_at (fs w) loc <> Some Dir /\
        fs w' = <[loc := File (received (content download))]> (fs w) /\
        (b = true \/ exists e, In (ReadError e) (content download)))).
Proof.
  unfold try_site, try_except.
  destruct (resolver_body s self u out w) as [[b | e] w1] eqn:Hbody;
    apply resolver_body_outcome in Hbody
      as (Hcwd & Hcalls & Hlog & Hk & Hfs).
  - intros [= <- <-]. exists b. split_and!; auto.
    destruct Hfs as [[Hb Hf] | (page & download & loc & Hp & Hr & Hn & Hf & Hc)].
    + left. destruct b; [congruence | auto].
    + right. exists page, download, loc. split_and!; auto.
      destruct Hc as [[= ->] | (e & [=] & _)]. now left.
  - unfold bind, logger_error, ret. intros [= <- <-]. exists false. simpl.
    split_and!; auto.
    + right. split; [reflexivity |]. exists e. now rewrite Hlog.
    + destruct Hfs as [[Hb Hf] | (page & download & loc & Hp & Hr & Hn & Hf & Hc)].
      * now left.
      * right. exists page, download, loc. split_and!; auto.
        destruct Hc as [[=] | (e' & [= <-] & Hin)]. right. eauto.
Qed.

(** No exception leaves a resolver. *)
Lemma try_site_total s self u out w :
  exists b w', try_site s self u out w = (Ok b, w').
Proof.
  destruct (try_site s self u out w) as [r w'] eqn:H.
  destruct (try_site_outcome _ _ _ _ _ _ _ H) as (b & -> & _). eauto.
Qed.

Lemma try_site_same_dirs s self u out w r w' :
  try_site s self u out w = (r, w') -> same_dirs w w'.
Proof.
  intros H. apply try_site_outcome in H as (b & _ & _ & _ & _ & _ & Hfs).
  unfold same_dirs.
  destruct Hfs as [[_ ->] | (page & download & loc & _ & _ & Hn & -> & _)].
  - apply dirs_agree_refl.
  - now apply dirs_agree_insert_file.
Qed.

Lemma resolve_same_dirs w w' p loc :
  cwd w' = cwd w -> same_dirs w w' ->
  resolve w p = inr loc -> resolve w' p = inr loc.
Proof.
  unfold resolve, same_dirs. intros -> Hd. now apply walk_dirs_agree.
Qed.

(** A resolver that answers [True] was served two answers and leaves in
    the destination exactly the body of the second one. *)
Lemma try_site_true s self u out w w' :
  try_site s self u out w = (Ok true, w') ->
  exists page download,
    pending w = GetResponse page :: GetResponse download :: pending w' /\
    read_file w' out = Some (received (content download)).
Proof.
  intros H. pose proof (try_site_same_dirs _ _ _ _ _ _ _ H) as Hdirs.
  apply try_site_outcome in H as (b & [= <-] & Hcwd & _ & _ & _ & Hfs).
  destruct Hfs as [[[=] _] | (page & download & loc & Hp & Hr & Hn & Hf & _)].
  exists page, download. split; [assumption |].
  unfold read_file. rewrite (resolve_same_dirs w w' out loc Hcwd Hdirs Hr), Hf.
  rewrite node_at_insert_eq by eauto using not_dir_not_root. reflexivity.
Qed.

Lemma In_skipn_In {A} (x : A) k l : In x (skipn k l) -> In x l.
Proof.
  revert l. induction k as [| k IH]; intros [| y l]; simpl; auto.
Qed.

Lemma bodies_intact_skipn k answers :
  bodies_intact answers = true -> bodies_intact (skipn k answers) = true.
Proof.
  unfold bodies_intact. rewrite !forallb_forall.
  intros H a Ha. apply H. eapply In_skipn_In; eauto.
Qed.

(** When no body breaks, a resolver that answers [False] has not touched
    the filesystem. *)
Lemma try_site_false_intact s self u out w w' :
  bodies_intact (pending w) = true ->
  try_site s self u out w = (Ok false, w') ->
  fs w' = fs w.
Proof.
  intros Hok H.
  apply try_site_outcome in H as (b & [= <-] & _ & _ & _ & _ & Hfs).
  destruct Hfs as [[_ ?] | (page & download & loc & Hp & _ & _ & _ & Hc)]; [assumption |].
  destruct Hc as [[=] | (e & Hin)].
  unfold bodies_intact in Hok. rewrite Hp in Hok. simpl in Hok.
  apply andb_prop in Hok as [_ Hok]. apply andb_prop in Hok as [Hok _].
  apply negb_true_iff in Hok.
  assert (existsb read_error (content download) = true)
    by (apply existsb_exists; exists (ReadError e); auto).
  congruence.
Qed.

Lemma terminal_failures_app ttl l1 l2 :
  terminal_failures ttl (l1 ++ l2) =
  (terminal_failures ttl l1 + terminal_failures ttl l2)%nat.
Proof. unfold terminal_failures. now rewrite List.filter_app, length_app. Qed.

(** A resolver never logs the terminal failure of a track. *)
Lemma try_site_terminal_failures s self u out w r w' ttl :
  try_site s self u out w = (r, w') ->
  terminal_failures ttl (log w') = terminal_failures ttl (log w).
Proof.
  intros H. apply try_site_outcome in H as (b & _ & _ & _ & _ & Hlog & _).
  destruct Hlog as [-> | (_ & e & ->)]; [reflexivity |].
  rewrite terminal_failures_app. cbn. lia.
Qed.

End ResolverFacts.

(** ** The engine *)

Section EngineFacts.

Variables (t : track) (out : path).

Lemma for_services_next svc rest w r w1 :
  call_service svc (url t) out w = (r, w1) ->
  reports_failure r = true ->
  for_services (svc :: rest) t out w =
  for_services rest t out (after_failure (svc_name svc) r w1).
Proof.
  intros Hcall Hr. simpl. unfold bind at 1. unfold try_except, bind at 1.
  rewrite Hcall. destruct r as [[|] | e]; try discriminate; reflexivity.
Qed.

Lemma for_services_return svc rest w w1 :
  call_service svc (url t) out w = (Ok true, w1) ->
  for_services (svc :: rest) t out w =
  (Ok tt, logged INFO (SuccessfullyDownloaded out) w1).
Proof.
  intros Hcall. simpl. unfold bind at 1. unfold try_except, bind at 1.
  rewrite Hcall. reflexivity.
Qed.

(** The loop stops at the first service that answers [True]. *)
Lemma for_services_success pre : forall s post w w1 w2,
  fail_all pre (url t) out w = Some w1 ->
  call_service s (url t) out w1 = (Ok true, w2) ->
  for_services (pre ++ s :: post) t out w =
  (Ok tt, logged INFO (SuccessfullyDownloaded out) w2).
Proof.
  induction pre as [| p pre IH]; intros s post w w1 w2 Hfail Hcall; simpl in Hfail.
  - injection Hfail as ->. now apply for_services_return.
  - destruct (call_service p (url t) out w) as [r w'] eqn:Hp.
    destruct (reports_failure r) eqn:Hr; [| discriminate].
    rewrite <- app_comm_cons, (for_services_next _ _ _ _ _ Hp Hr). eauto.
Qed.

(** When every service reports failure, the loop ends on line 56. *)
Lemma for_services_exhausted services : forall w w1,
  fail_all services (url t) out w = Some w1 ->
  for_services services t out w =
  (Ok tt, logged ERROR (FailedToDownload (title t)) w1).
Proof.
  induction services as [| p rest IH]; intros w w1 Hfail; simpl in Hfail.
  - injection Hfail as ->. reflexivity.
  - destruct (call_service p (url t) out w) as [r w'] eqn:Hp.
    destruct (reports_failure r) eqn:Hr; [| discriminate].
    rewrite (for_services_next _ _ _ _ _ Hp Hr). eauto.
Qed.

(** The loop has these two ends and no other. *)
Lemma for_services_ends services : forall w,
  (exists pre s post w1 w2,
      services = pre ++ s :: post /\
      fail_all pre (url t) out w = Some w1 /\
      call_service s (url t) out w1 = (Ok true, w2) /\
      for_services services t out w =
      (Ok tt, logged INFO (SuccessfullyDownloaded out) w2)) \/
  (exists w1,
      fail_all services (url t) out w = Some w1 /\
      for_services services t out w =
      (Ok tt, logged ERROR (FailedToDownload (title t)) w1)).
Proof.
  induction services as [| p rest IH]; intros w.
  - right. exists w. split; reflexivity.
  - destruct (call_service p (url t) out w) as [r w'] eqn:Hp.
    destruct (reports_failure r) eqn:Hr.
    + destruct (IH (after_failure (svc_name p) r w'))
        as [(pre & s & post & w1 & w2 & -> & Hf & Hc & Hrun) | (w1 & Hf & Hrun)].
      * left. exists (p :: pre), s, post, w1, w2. split_and!; auto.
        -- simpl. now rewrite Hp, Hr.
        -- rewrite <- Hrun. apply (for_services_next _ _ _ _ _ Hp Hr).
      * right. exists w1. split.
        -- simpl. now rewrite Hp, Hr.
        -- rewrite <- Hrun. apply (for_services_next _ _ _ _ _ Hp Hr).
    + destruct r as [[|] | e]; try discriminate.
      left. exists [], p, rest, w, w'. split_and!; auto.
      now apply for_services_return.
Qed.

Lemma call_service_calls s u w r w1 :
  call_service s u out w = (r, w1) -> calls w1 = calls w ++ [svc_name s].
Proof.
  unfold call_service. destruct (svc_run s u out w) as [r0 w0].
  now intros [= _ <-].
Qed.

Lemma after_failure_calls name r w : calls (after_failure name r w) = calls w.
Proof. now destruct r. Qed.

(** The services that reported failure are recorded in their order. *)
Lemma fail_all_calls pre : forall u w w1,
  fail_all pre u out w = Some w1 ->
  calls w1 = calls w ++ map svc_name pre.
Proof.
  induction pre as [| p pre IH]; intros u w w1 Hfail; simpl in Hfail.
  - injection Hfail as ->. now rewrite app_nil_r.
  - destruct (call_service p u out w) as [r w'] eqn:Hp.
    destruct (reports_failure r); [| discriminate].
    apply IH in Hfail. rewrite Hfail, after_failure_calls.
    rewrite (call_service_calls _ _ _ _ _ Hp), <- app_assoc. reflexivity.
Qed.

End EngineFacts.

Section TrackFacts.

Variables (services : list service) (self : downloader) (t : track).

Lemma path_exists_exists_in p w : path_exists p w = (Ok (exists_in w p), w).
Proof. unfold path_exists, exists_in. now destruct (resolve w p). Qed.

(** The directory cannot be made: the exception leaves [download_track]. *)
Lemma download_track_with_raise w e w0 :
  mkdir_exist_ok (artist_dir_of self t) w = (Raise e, w0) ->
  download_track_with services self t w = (Raise e, w0).
Proof.
  intros H. unfold download_track_with, bind.
  fold (artist_dir_of self t). now rewrite H.
Qed.

(** The destination is there: line 36 and nothing else. *)
Lemma download_track_with_skip w w0 :
  mkdir_exist_ok (artist_dir_of self t) w = (Ok tt, w0) ->
  exists_in w0 (output_path_of self t) = true ->
  download_track_with services self t w =
  (Ok tt, logged INFO (TrackAlreadyExists (output_path_of self t)) w0).
Proof.
  intros H Hex. unfold download_track_with, bind.
  fold (artist_dir_of self t). rewrite H.
  fold (output_path_of self t).
  rewrite path_exists_exists_in, Hex. reflexivity.
Qed.

(** The destination is not there: the loop over the services. *)
Lemma download_track_with_enter w w0 :
  mkdir_exist_ok (artist_dir_of self t) w = (Ok tt, w0) ->
  exists_in w0 (output_path_of self t) = false ->
  download_track_with services self t w =
  for_services services t (output_path_of self t) w0.
Proof.
  intros H Hex. unfold download_track_with, bind.
  fold (artist_dir_of self t). rewrite H.
  fold (output_path_of self t).
  rewrite path_exists_exists_in, Hex. reflexivity.
Qed.

Lemma mkdir_frame p w r w0 :
  mkdir_exist_ok p w = (r, w0) ->
  log w0 = log w /\ requests w0 = requests w /\ pending w0 = pending w /\
  calls w0 = calls w /\ cwd w0 = cwd w.
Proof.
  unfold mkdir_exist_ok. destruct (resolve w p) as [e | loc].
  - now intros [= <- <-].
  - destruct (node_at (fs w) loc) as [[d |] |]; now intros [= <- <-].
Qed.

(** A destination that exists has its directory: [mkdir] changes nothing. *)
Lemma mkdir_of_existing w :
  exists_in w (output_path_of self t) = true ->
  mkdir_exist_ok (artist_dir_of self t) w = (Ok tt, w).
Proof.
  unfold exists_in, mkdir_exist_ok, resolve.
  rewrite output_path_shape. cbn [root parts].
  rewrite walk_snoc.
  destruct (walk (fs w) _ (parts (artist_dir_of self t))) as [e | l1];
    [discriminate |].
  destruct (node_at (fs w) l1) as [[d |] |]; try discriminate. reflexivity.
Qed.

End TrackFacts.

(** ** The three services of [download_track] *)

Section ServiceFacts.

Variable self : downloader.

Lemma download_services_from_site : Forall (from_site self) (download_services self).
Proof.
  repeat constructor;
    [exists scdownloader | exists soundcloudmp3 | exists downloadsound]; reflexivity.
Qed.

Lemma from_site_part pre s post :
  download_services self = pre ++ s :: post ->
  Forall (from_site self) pre /\ from_site self s.
Proof.
  intros H. pose proof download_services_from_site as Hall.
  rewrite H in Hall. apply List.Forall_app in Hall as [Hpre Hrest].
  split; [assumption | now inversion Hrest].
Qed.

Lemma call_site s u out w r w' :
  from_site self s ->
  call_service s u out w = (r, w') ->
  exists site w'',
    try_site site self u out w = (r, w'') /\
    w' = with_calls (calls w ++ [svc_name s]) w''.
Proof.
  intros [site Hs]. unfold call_service. rewrite Hs.
  destruct (try_site site self u out w) as [r0 w0] eqn:H.
  intros [= <- <-]. eauto.
Qed.

Lemma read_file_frame w w' p :
  fs w' = fs w -> cwd w' = cwd w -> read_file w' p = read_file w p.
Proof. unfold read_file, resolve. now intros -> ->. Qed.

Lemma exists_in_frame w w' p :
  fs w' = fs w -> cwd w' = cwd w -> exists_in w' p = exists_in w p.
Proof. unfold exists_in, resolve. now intros -> ->. Qed.

(** What a run of failures of the resolvers leaves behind. *)
Lemma fail_all_sites u out ttl services :
  Forall (from_site self) services ->
  forall w w1,
    fail_all services u out w = Some w1 ->
    cwd w1 = cwd w /\ same_dirs w w1 /\
    terminal_failures ttl (log w1) = terminal_failures ttl (log w) /\
    (bodies_intact (pending w) = true -> fs w1 = fs w).
Proof.
  induction 1 as [| s rest Hs _ IH]; intros w w1 Hfail; simpl in Hfail.
  - injection Hfail as ->. split_and!; auto. apply dirs_agree_refl.
  - destruct (call_service s u out w) as [r w'] eqn:Hcall.
    destruct (reports_failure r) eqn:Hr; [| discriminate].
    destruct (call_site _ _ _ _ _ _ Hs Hcall) as (site & w'' & Hrun & ->).
    pose proof (try_site_same_dirs _ _ _ _ _ _ _ Hrun) as Hdirs.
    pose proof (try_site_terminal_failures _ _ _ _ _ _ _ ttl Hrun) as Hcount.
    destruct (try_site_outcome _ _ _ _ _ _ _ Hrun)
      as (b & -> & Hcwd & _ & (k & Hk) & _ & _).
    destruct b; [discriminate |]. simpl in Hfail.
    apply IH in Hfail as (Hcwd1 & Hdirs1 & Hcount1 & Hfs1). simpl in *.
    split_and!.
    + congruence.
    + eapply dirs_agree_trans; eassumption.
    + congruence.
    + intros Hok. rewrite Hfs1.
      * now apply (try_site_false_intact _ _ _ _ _ _ Hok Hrun).
      * rewrite Hk. now apply bodies_intact_skipn.
Qed.

(** One of the three resolvers answers [True] after the others before it
    failed: the destination holds the body it was served, and nothing
    else. *)
Lemma download_track_served t w w0 w1 w2 pre s post :
  download_services self = pre ++ s :: post ->
  mkdir_exist_ok (artist_dir_of self t) w = (Ok tt, w0) ->
  exists_in w0 (output_path_of self t) = false ->
  fail_all pre (url t) (output_path_of self t) w0 = Some w1 ->
  call_service s (url t) (output_path_of self t) w1 = (Ok true, w2) ->
  exists page download w',
    pending w1 = GetResponse page :: GetResponse download :: pending w2 /\
    download_track self t w = (Ok tt, w') /\
    read_file w' (output_path_of self t) = Some (received (content download)).
Proof.
  intros Hsplit Hmk Hex Hfail Hcall.
  destruct (from_site_part _ _ _ Hsplit) as [_ Hs].
  destruct (call_site _ _ _ _ _ _ Hs Hcall) as (site & w'' & Hrun & ->).
  destruct (try_site_true _ _ _ _ _ _ Hrun) as (page & download & Hp & Hread).
  exists page, download. eexists. split_and!.
  - exact Hp.
  - unfold download_track. rewrite Hsplit.
    rewrite (download_track_with_enter _ _ _ _ _ Hmk Hex).
    eapply for_services_success; eassumption.
  - rewrite <- Hread. now apply read_file_frame.
Qed.

End ServiceFacts.

(** ** Running the model on concrete worlds *)

Section Evaluation.

Lemma run_to {A} (x : result A * world) (a : A) :
  fst x = Ok a -> x = (Ok a, snd x).
Proof. destruct x as [r w]. simpl. now intros ->. Defined.

Lemma some_default (o : option world) (d : world) :
  match o with Some _ => true | None => false end = true ->
  o = Some (match o with Some x => x | None => d end).
Proof. destruct o; [reflexivity | discriminate]. Defined.

End Evaluation.

Ltac evaluate :=
  lazymatch goal with
  | |- download_services _ = _ => reflexivity
  | |- ?x = (Ok ?a, _) => apply (run_to x a); vm_compute; reflexivity
  | |- ?o = Some (Sample.after_failures _ _ ?d) =>
      apply (some_default o d); vm_compute; reflexivity
  | |- _ => vm_compute; reflexivity
  end.

(** * The claims *)

(** C1. When the directory of the artist is in place and the destination
    is not there, and the first services of the list all report failure
    (answer [False] or raise) while the next one answers [True], then
    [download_track] calls exactly these services, in the order of the list,
    returns right after the successful one without calling any later
    service, and the destination holds what the successful service left
    in it. *)
Theorem fallback_stops_at_first_success
    (self : downloader) (t : track) (pre post : list service) (s : service)
    (w w0 w1 w2 : world) :
  mkdir_exist_ok (artist_dir_of self t) w = (Ok tt, w0) ->
  exists_in w0 (output_path_of self t) = false ->
  fail_all pre (url t) (output_path_of self t) w0 = Some w1 ->
  call_service s (url t) (output_path_of self t) w1 = (Ok true, w2) ->
  exists w',
    download_track_with (pre ++ s :: post) self t w = (Ok tt, w') /\
    w' = logged INFO (SuccessfullyDownloaded (output_path_of self t)) w2 /\
    calls w' = calls w ++ map svc_name pre ++ [svc_name s] /\
    read_file w' (output_path_of self t) = read_file w2 (output_path_of self t).
Proof.
  intros Hmk Hex Hfail Hcall. eexists. split_and!.
  - rewrite (download_track_with_enter _ _ _ _ _ Hmk Hex).
    eapply for_services_success; eassumption.
  - reflexivity.
  - simpl. rewrite (call_service_calls _ _ _ _ _ _ Hcall).
    rewrite (fail_all_calls _ _ _ _ _ Hfail).
    destruct (mkdir_frame _ _ _ _ Hmk) as (_ & _ & _ & -> & _).
    now rewrite <- app_assoc.
  - reflexivity.
Qed.

Lemma fallback_stops_at_first_success_witness :
  exists w',
    download_track_with ([Sample.svc1] ++ Sample.svc2 :: [Sample.svc3])
      Sample.self Sample.my_song Sample.second_serves = (Ok tt, w') /\
    calls w' = ["_try_scdownloader"; "_try_soundcloudmp3"]%string /\
    read_file w' Sample.output_path = Some [x66; x4c; x61; x43].
Proof.
  destruct (fallback_stops_at_first_success
              Sample.self Sample.my_song [Sample.svc1] [Sample.svc3] Sample.svc2
              Sample.second_serves
              (Sample.after_mkdir Sample.my_song Sample.second_serves)
              (Sample.after_failures [Sample.svc1] Sample.my_song
                 (Sample.after_mkdir Sample.my_song Sample.second_serves))
              (Sample.after_call Sample.svc2 Sample.my_song
                 (Sample.after_failures [Sample.svc1] Sample.my_song
                    (Sample.after_mkdir Sample.my_song Sample.second_serves))))
    as (w' & Hrun & _ & Hcalls & Hread); [evaluate .. |].
  exists w'. split; [exact Hrun |]. split; [exact Hcalls |].
  unfold Sample.output_path. rewrite Hread. vm_compute. reflexivity.
Defined.


Section Opened.




End Opened.



(** C3 (as stated, refuted).  The download directory is missing, so the
    directory of the artist cannot be made: [FileNotFoundError] leaves
    [download_track]. *)
Lemma download_track_can_raise :
  fst (download_track Sample.self Sample.my_song Sample.no_root)
  = Raise FileNotFoundError.
Proof. vm_compute. reflexivity. Qed.

Lemma download_track_with_is_over services self t :
  download_track_with services self t
  = download_track_over mkdir_exist_ok path_exists services self t.
Proof. reflexivity. Qed.

(** C3 (amended).  An exception leaves [download_track] only from one of
    the two calls it makes on paths before the loop, [mkdir] on line 31 and
    [exists] on line 35, neither of which is inside a [try]; this holds
    whatever these two calls and the resolvers do.  In every other run
    [download_track] returns, and the last thing it did was to log how the
    track ended: skipped, downloaded, or failed for good; what a resolver
    raised was caught on the way. *)
Theorem download_track_raises_only_before_loop
    (mkdir : path -> M unit) (exists_ : path -> M bool)
    (services : list service) (self : downloader) (t : track)
    (w : world) (r : result unit) (w' : world) :
  download_track_over mkdir exists_ services self t w = (r, w') ->
  (exists e, r = Raise e /\
     (mkdir (artist_dir_of self t) w = (Raise e, w') \/
      exists w0, mkdir (artist_dir_of self t) w = (Ok tt, w0) /\
                 exists_ (output_path_of self t) w0 = (Raise e, w'))) \/
  (r = Ok tt /\
   exists w1 lv m,
     w' = logged lv m w1 /\
     (m = TrackAlreadyExists (output_path_of self t) \/
      m = SuccessfullyDownloaded (output_path_of self t) \/
      m = FailedToDownload (title t))).
Proof.
  unfold download_track_over.
  fold (artist_dir_of self t). fold (output_path_of self t).
  intros Hrun.
  apply bind_inv in Hrun as [([] & w0 & Hmk & Hrun) | (e & Hmk & ->)].
  2:{ left. exists e. auto. }
  apply bind_inv in Hrun as [(present & w0' & Hex & Hrun) | (e & Hex & ->)].
  2:{ left. exists e. split; [reflexivity |]. right. eauto. }
  right. destruct present.
  - unfold logger_info in Hrun. injection Hrun as <- <-.
    split; [reflexivity |]. eauto 8.
  - destruct (for_services_ends t (output_path_of self t) services w0')
      as [(pre & s & post & w1 & w2 & _ & _ & _ & Hend) | (w1 & _ & Hend)];
      rewrite Hend in Hrun; injection Hrun as <- <-;
      (split; [reflexivity |]); eauto 8.
Qed.

Lemma download_track_raises_only_before_loop_witness :
  (exists e,
     fst (download_track Sample.self Sample.my_song Sample.no_root) = Raise e /\
     (mkdir_exist_ok (artist_dir_of Sample.self Sample.my_song) Sample.no_root
      = (Raise e, snd (download_track Sample.self Sample.my_song Sample.no_root)) \/
      exists w0,
        mkdir_exist_ok (artist_dir_of Sample.self Sample.my_song) Sample.no_root
        = (Ok tt, w0) /\
        path_exists (output_path_of Sample.self Sample.my_song) w0
        = (Raise e, snd (download_track Sample.self Sample.my_song Sample.no_root)))) \/
  (fst (download_track Sample.self Sample.my_song Sample.no_root) = Ok tt /\
   exists w1 lv m,
     snd (download_track Sample.self Sample.my_song Sample.no_root) = logged lv m w1 /\
     (m = TrackAlreadyExists (output_path_of Sample.self Sample.my_song) \/
      m = SuccessfullyDownloaded (output_path_of Sample.self Sample.my_song) \/
      m = FailedToDownload (title Sample.my_song))).
Proof.
  apply (download_track_raises_only_before_loop
           mkdir_exist_ok path_exists
           (download_services Sample.self) Sample.self Sample.my_song
           Sample.no_root).
  change (download_track_over mkdir_exist_ok path_exists
            (download_services Sample.self) Sample.self Sample.my_song Sample.no_root)
    with (download_track Sample.self Sample.my_song Sample.no_root).
  now destruct (download_track Sample.self Sample.my_song Sample.no_root).
Defined.

(** C4.  When the destination exists as [download_track] is called, no
    resolver is called and no request is issued, the filesystem is left as
    it was, and [download_track] returns after logging that the track
    already exists. *)
Theorem existing_destination_is_skipped
    (services : list service) (self : downloader) (t : track) (w : world) :
  exists_in w (output_path_of self t) = true ->
  exists w',
    download_track_with services self t w = (Ok tt, w') /\
    calls w' = calls w /\
    requests w' = requests w /\ pending w' = pending w /\
    fs w' = fs w /\
    read_file w' (output_path_of self t) = read_file w (output_path_of self t) /\
    log w' = log w ++ [(INFO, TrackAlreadyExists (output_path_of self t))].
Proof.
  intros Hex. eexists. split.
  - apply download_track_with_skip; [now apply mkdir_of_existing | exact Hex].
  - split_and!; reflexivity.
Qed.

Lemma existing_destination_is_skipped_witness :
  exists w',
    download_track Sample.self Sample.my_song Sample.already_there = (Ok tt, w') /\
    calls w' = [] /\ requests w' = [] /\
    read_file w' Sample.output_path = Some [x49; x44; x33].
Proof.
  destruct (existing_destination_is_skipped
              (download_services Sample.self) Sample.self Sample.my_song
              Sample.already_there)
    as (w' & Hrun & Hcalls & Hreq & _ & _ & Hread & _); [evaluate |].
  exists w'. split; [exact Hrun |]. split; [exact Hcalls |]. split; [exact Hreq |].
  unfold Sample.output_path. rewrite Hread. vm_compute. reflexivity.
Defined.

(** C5.  For every input string, the output of the sanitizer contains none
    of the nine characters of the pattern (less-than, greater-than, colon,
    double quote, slash, backslash, vertical bar, question mark, asterisk),
    contains no space, and is at most 200 characters long. *)
Theorem sanitize_output_safe (x : pystr) :
  Forall (fun c => ~ In c invalid_chars /\ c <> space) (_sanitize_filename x) /\
  (length (_sanitize_filename x) <= 200)%nat.
Proof. split; [apply sanitize_clean | apply sanitize_length]. Qed.

(** C6.  The sanitizer is idempotent: applied to its own output it changes
    nothing. *)
Theorem sanitize_idempotent (x : pystr) :
  _sanitize_filename (_sanitize_filename x) = _sanitize_filename x.
Proof.
  apply sanitize_fixpoint; [apply sanitize_clean | apply sanitize_length].
Qed.

(** C7.  The destination of a track is the download directory, then the
    sanitized artist, then the sanitized title followed by [.mp3]: the two
    joins add to the components of the download directory the component the
    sanitized artist makes and the file name, which is always one component.
    For the track My Song by DJ Test and the directory [downloads/] this is
    [downloads/DJ_Test/My_Song.mp3], and a run in which a resolver succeeds
    leaves the file there. *)
Theorem destination_path_layout (self : downloader) (t : track) :
  output_path_of self t =
    joinpath (joinpath (download_dir self) (_sanitize_filename (artist t)))
             (_sanitize_filename (title t) ++ py ".mp3") /\
  output_path_of self t =
    Path (root (download_dir self))
         (parts (download_dir self)
          ++ (if is_component (_sanitize_filename (artist t))
              then [_sanitize_filename (artist t)] else [])
          ++ [_sanitize_filename (title t) ++ py ".mp3"]) /\
  (forall session,
     render (output_path_of (Downloader (parse (py "downloads/")) session)
               (Track (py "My Song") (py "DJ Test") (py "https://example.com/t/1")))
     = py "downloads/DJ_Test/My_Song.mp3") /\
  (forall w w0 w1 w2 pre s post,
     download_services self = pre ++ s :: post ->
     mkdir_exist_ok (artist_dir_of self t) w = (Ok tt, w0) ->
     exists_in w0 (output_path_of self t) = false ->
     fail_all pre (url t) (output_path_of self t) w0 = Some w1 ->
     call_service s (url t) (output_path_of self t) w1 = (Ok true, w2) ->
     exists page download w',
       pending w1 = GetResponse page :: GetResponse download :: pending w2 /\
       download_track self t w = (Ok tt, w') /\
       read_file w' (output_path_of self t) = Some (received (content download))).
Proof.
  split_and!.
  - reflexivity.
  - rewrite output_path_shape. unfold artist_dir_of.
    rewrite joinpath_segment by apply sanitize_no_slash.
    cbn [root parts]. now rewrite <- app_assoc.
  - intros session. vm_compute. reflexivity.
  - intros w w0 w1 w2 pre s post. apply download_track_served.
Qed.

Lemma destination_path_layout_witness :
  output_path_of Sample.self Sample.my_song
  = Path [] [py "downloads"; py "DJ_Test"; py "My_Song.mp3"] /\
  exists w',
    download_track Sample.self Sample.my_song Sample.first_serves = (Ok tt, w') /\
    read_file w' (Path [] [py "downloads"; py "DJ_Test"; py "My_Song.mp3"])
    = Some [x49; x44; x33; x04].
Proof.
  destruct (destination_path_layout Sample.self Sample.my_song)
    as (_ & _ & _ & Hrun).
  assert (Hpath : output_path_of Sample.self Sample.my_song
                  = Path [] [py "downloads"; py "DJ_Test"; py "My_Song.mp3"])
    by (vm_compute; reflexivity).
  split; [exact Hpath |].
  destruct (Hrun Sample.first_serves
              (Sample.after_mkdir Sample.my_song Sample.first_serves)
              (Sample.after_failures [] Sample.my_song
                 (Sample.after_mkdir Sample.my_song Sample.first_serves))
              (Sample.after_call Sample.svc1 Sample.my_song
                 (Sample.after_failures [] Sample.my_song
                    (Sample.after_mkdir Sample.my_song Sample.first_serves)))
              [] Sample.svc1 [Sample.svc2; Sample.svc3])
    as (page & download & w' & Hpending & Hdone & Hread); [evaluate .. |].
  exists w'. split; [exact Hdone |].
  rewrite Hpath in Hread. rewrite Hread.
  assert (Hbody : Some (GetResponse download)
                  = Some (GetResponse (Sample.audio [Data [x49; x44; x33]; Data [x04]]))).
  { change (Some (GetResponse download))
      with (nth_error (GetResponse page :: GetResponse download
                         :: pending (Sample.after_call Sample.svc1 Sample.my_song
                              (Sample.after_failures [] Sample.my_song
                                 (Sample.after_mkdir Sample.my_song Sample.first_serves)))) 1).
    rewrite <- Hpending. vm_compute. reflexivity. }
  injection Hbody as ->. reflexivity.
Defined.

(** ** More on resolvers and the loop *)

Section ResolverReads.

Lemma status_not_200 (r : response) :
  status r <> 200%Z -> negb (status r =? 200)%Z = true.
Proof. intros H. apply negb_true_iff. now apply Z.eqb_neq. Qed.

Lemma status_200 (r : response) :
  status r = 200%Z -> negb (status r =? 200)%Z = false.
Proof. intros ->. reflexivity. Qed.

Lemma first_get_served s self u q r rest w :
  session self = true -> Quote.quote u = inr q ->
  pending w = GetResponse r :: rest ->
  session_get self (conversion_url (endpoint s) u) w
  = (Ok r, with_net (requests w ++ [endpoint s ++ q]) rest w).
Proof.
  intros Hs Hq Hp. unfold session_get, conversion_url, bind, ret, send.
  now rewrite Hs, Hq, Hp.
Qed.

(** A resolver that declines answers [False] and leaves the filesystem
    and the log as they were. *)
Lemma gives_up_false s self u out w :
  gives_up s self u w ->
  exists w', try_site s self u out w = (Ok false, w') /\
             fs w' = fs w /\ log w' = log w.
Proof.
  intros [q r rest Hs Hq Hp Hst
         | q r rest soup Hs Hq Hp Hst Htx Hfind
         | q r rest soup button Hs Hq Hp Hst Htx Hfind Hhref
         | q r rest soup button direct r2 rest2 Hs Hq Hp Hst Htx Hfind Hhref Hne -> Hst2];
    unfold try_site, try_except, resolver_body; unfold bind at 1;
    rewrite (first_get_served _ _ _ _ _ _ _ Hs Hq Hp).
  - rewrite (status_not_200 _ Hst). eexists. split; [reflexivity | auto].
  - rewrite (status_200 _ Hst). unfold bind, response_text, ret.
    rewrite Htx, Hfind. eexists. split; [reflexivity | auto].
  - rewrite (status_200 _ Hst). unfold bind, response_text, ret.
    rewrite Htx, Hfind.
    destruct Hhref as [-> | ->]; eexists; (split; [reflexivity | auto]).
  - rewrite (status_200 _ Hst). unfold bind at 1. unfold response_text, ret at 1.
    rewrite Htx, Hfind, Hhref.
    destruct direct as [| c direct]; [congruence |].
    unfold bind at 1. unfold session_get, bind, ret, send. rewrite Hs. simpl.
    rewrite (status_not_200 _ Hst2). eexists. split; [reflexivity | auto].
Qed.

(** After a call of a resolver the destination either reads as before,
    or holds the body served by the second answer and nothing of what it
    held before. *)
Lemma try_site_reads s self u out w r w' :
  try_site s self u out w = (r, w') ->
  read_file w' out = read_file w out \/
  exists page download,
    pending w = GetResponse page :: GetResponse download :: pending w' /\
    read_file w' out = Some (received (content download)).
Proof.
  intros H. pose proof (try_site_same_dirs _ _ _ _ _ _ _ H) as Hdirs.
  apply try_site_outcome in H as (b & _ & Hcwd & _ & _ & _ & Hfs).
  destruct Hfs as [[_ Hf] | (page & download & loc & Hp & Hr & Hn & Hf & _)].
  - left. now apply read_file_frame.
  - right. exists page, download. split; [assumption |].
    unfold read_file. rewrite (resolve_same_dirs w w' out loc Hcwd Hdirs Hr), Hf.
    rewrite node_at_insert_eq by eauto using not_dir_not_root. reflexivity.
Qed.

(** The loop over resolvers always returns and changes no directory. *)
Lemma for_services_sites self services t out w r w' :
  Forall (from_site self) services ->
  for_services services t out w = (r, w') ->
  r = Ok tt /\ same_dirs w w'.
Proof.
  intros Hall Hrun.
  destruct (for_services_ends t out services w)
    as [(pre & s & post & w1 & w2 & -> & Hf & Hc & Hend) | (w1 & Hf & Hend)];
    rewrite Hend in Hrun; injection Hrun as <- <-; (split; [reflexivity |]).
  - apply List.Forall_app in Hall as [Hpre Hrest].
    destruct (fail_all_sites self _ _ [] _ Hpre _ _ Hf) as (_ & Hd1 & _).
    assert (Hs : from_site self s) by now inversion Hrest.
    destruct (call_site _ _ _ _ _ _ _ Hs Hc) as (site & w'' & Hsite & ->).
    apply try_site_same_dirs in Hsite.
    unfold same_dirs in *. simpl. eapply dirs_agree_trans; eassumption.
  - destruct (fail_all_sites self _ _ [] _ Hall _ _ Hf) as (_ & Hd1 & _).
    exact Hd1.
Qed.

Lemma joinpath_empty p : joinpath p [] = p.
Proof. destruct p as [r ps]. unfold joinpath. simpl. now rewrite app_nil_r. Qed.

End ResolverReads.

(** C8.  No exception leaves a resolver: whatever the input, it answers
    [True] or [False].  When the first answer has a status other than 200,
    when the page has no link of the expected class, when the link has no
    target, or when the second answer has a status other than 200, it
    answers [False] and logs nothing; when its body raises, it logs the
    error under its own name and answers [False].  The three resolvers are
    [try_site] at [scdownloader], [soundcloudmp3] and [downloadsound]. *)
Theorem resolver_never_raises
    (s : site) (self : downloader) (u : pystr) (out : path) (w : world) :
  (exists b w', try_site s self u out w = (Ok b, w')) /\
  (gives_up s self u w ->
   exists w', try_site s self u out w = (Ok false, w') /\
              fs w' = fs w /\ log w' = log w) /\
  (forall e w1,
     resolver_body s self u out w = (Raise e, w1) ->
     try_site s self u out w
     = (Ok false, logged ERROR (ErrorIn (label s) e) w1)).
Proof.
  split_and!.
  - apply try_site_total.
  - apply gives_up_false.
  - intros e w1 Hbody. unfold try_site, try_except. now rewrite Hbody.
Qed.

Lemma resolver_never_raises_witness :
  exists w',
    _try_scdownloader Sample.self (url Sample.my_song) Sample.output_path
      Sample.all_decline = (Ok false, w') /\
    fs w' = fs Sample.all_decline /\ log w' = [].
Proof.
  destruct (resolver_never_raises scdownloader Sample.self (url Sample.my_song)
              Sample.output_path Sample.all_decline) as (_ & Hdecline & _).
  apply Hdecline.
  apply (first_get_not_200 scdownloader Sample.self (url Sample.my_song)
           Sample.all_decline
           (match Quote.quote (url Sample.my_song) with inr q => q | inl _ => [] end)
           Sample.not_found
           [GetResponse (Sample.page "other"); GetRaises (ClientError "connect")]).
  - reflexivity.
  - vm_compute. reflexivity.
  - reflexivity.
  - vm_compute. discriminate.
Defined.

(** C9.  A resolver that gets as far as streaming opens the destination
    with [wb], which empties it before the first chunk is written: after any
    call of a resolver the destination either reads as before or holds the
    body of the answer just streamed, and nothing older.  So when a resolver
    succeeds in a run of [download_track], the destination ends up holding
    exactly the body that resolver was served, whatever an earlier resolver
    left there. *)
Theorem success_leaves_only_own_body (self : downloader) :
  (forall s u out w r w',
     try_site s self u out w = (r, w') ->
     read_file w' out = read_file w out \/
     exists page download,
       pending w = GetResponse page :: GetResponse download :: pending w' /\
       read_file w' out = Some (received (content download))) /\
  (forall t w w0 w1 w2 pre s post,
     download_services self = pre ++ s :: post ->
     mkdir_exist_ok (artist_dir_of self t) w = (Ok tt, w0) ->
     exists_in w0 (output_path_of self t) = false ->
     fail_all pre (url t) (output_path_of self t) w0 = Some w1 ->
     call_service s (url t) (output_path_of self t) w1 = (Ok true, w2) ->
     exists page download w',
       pending w1 = GetResponse page :: GetResponse download :: pending w2 /\
       download_track self t w = (Ok tt, w') /\
       read_file w' (output_path_of self t) = Some (received (content download))).
Proof.
  split.
  - intros s u out w r w'. apply try_site_reads.
  - intros t w w0 w1 w2 pre s post. apply download_track_served.
Qed.

Lemma success_leaves_only_own_body_witness :
  read_file (Sample.after_failures [Sample.svc1] Sample.my_song
               (Sample.after_mkdir Sample.my_song Sample.second_serves))
    Sample.output_path = Some [x49; x44] /\
  exists w',
    download_track Sample.self Sample.my_song Sample.second_serves = (Ok tt, w') /\
    read_file w' Sample.output_path = Some [x66; x4c; x61; x43].
Proof.
  split; [vm_compute; reflexivity |].
  destruct (success_leaves_only_own_body Sample.self) as [_ Hrun].
  destruct (Hrun Sample.my_song Sample.second_serves
              (Sample.after_mkdir Sample.my_song Sample.second_serves)
              (Sample.after_failures [Sample.svc1] Sample.my_song
                 (Sample.after_mkdir Sample.my_song Sample.second_serves))
              (Sample.after_call Sample.svc2 Sample.my_song
                 (Sample.after_failures [Sample.svc1] Sample.my_song
                    (Sample.after_mkdir Sample.my_song Sample.second_serves)))
              [Sample.svc1] Sample.svc2 [Sample.svc3])
    as (page & download & w' & Hpending & Hdone & Hread); [evaluate .. |].
  exists w'. split; [exact Hdone |].
  unfold Sample.output_path. rewrite Hread.
  vm_compute in Hpending. injection Hpending as _ <-. reflexivity.
Defined.

(** C10.  When the artist sanitizes to the empty string, joining it to the
    download directory gives the download directory itself, so the
    destination is the file name directly under it.  With the download
    directory in place, [mkdir] finds it and changes nothing,
    [download_track] returns without an exception and without making any
    directory, and a resolver that succeeds leaves the file directly under
    the download directory. *)
Theorem empty_artist_writes_under_root (self : downloader) (t : track) :
  _sanitize_filename (artist t) = [] ->
  artist_dir_of self t = download_dir self /\
  output_path_of self t =
    Path (root (download_dir self))
         (parts (download_dir self) ++ [_sanitize_filename (title t) ++ py ".mp3"]) /\
  (forall w loc,
     resolve w (download_dir self) = inr loc ->
     node_at (fs w) loc = Some Dir ->
     mkdir_exist_ok (artist_dir_of self t) w = (Ok tt, w) /\
     (exists w', download_track self t w = (Ok tt, w') /\ same_dirs w w') /\
     (forall w1 w2 pre s post,
        download_services self = pre ++ s :: post ->
        exists_in w (output_path_of self t) = false ->
        fail_all pre (url t) (output_path_of self t) w = Some w1 ->
        call_service s (url t) (output_path_of self t) w1 = (Ok true, w2) ->
        exists page download w',
          pending w1 = GetResponse page :: GetResponse download :: pending w2 /\
          download_track self t w = (Ok tt, w') /\
          read_file w'
            (Path (root (download_dir self))
                  (parts (download_dir self)
                   ++ [_sanitize_filename (title t) ++ py ".mp3"]))
          = Some (received (content download)))).
Proof.
  intros Hempty.
  assert (Hdir : artist_dir_of self t = download_dir self)
    by (unfold artist_dir_of; rewrite Hempty; apply joinpath_empty).
  assert (Hout : output_path_of self t =
                 Path (root (download_dir self))
                      (parts (download_dir self)
                       ++ [_sanitize_filename (title t) ++ py ".mp3"]))
    by (rewrite output_path_shape, Hdir; reflexivity).
  split_and!; [exact Hdir | exact Hout |].
  intros w loc Hres Hnode.
  assert (Hmk : mkdir_exist_ok (artist_dir_of self t) w = (Ok tt, w))
    by (rewrite Hdir; unfold mkdir_exist_ok; now rewrite Hres, Hnode).
  split_and!.
  - exact Hmk.
  - destruct (download_track self t w) as [r w'] eqn:Hrun.
    unfold download_track in Hrun.
    destruct (exists_in w (output_path_of self t)) eqn:Hex.
    + rewrite (download_track_with_skip _ _ _ _ _ Hmk Hex) in Hrun.
      injection Hrun as <- <-. eexists. split; [reflexivity |].
      apply dirs_agree_refl.
    + rewrite (download_track_with_enter _ _ _ _ _ Hmk Hex) in Hrun.
      apply (for_services_sites self) in Hrun as [-> Hdirs];
        [| apply download_services_from_site].
      eauto.
  - intros w1 w2 pre s post Hsplit Hex Hfail Hcall. rewrite <- Hout.
    eapply download_track_served; eassumption.
Qed.

Lemma empty_artist_writes_under_root_witness :
  artist_dir_of Sample.self Sample.anonymous = download_dir Sample.self /\
  mkdir_exist_ok (artist_dir_of Sample.self Sample.anonymous) Sample.first_serves
  = (Ok tt, Sample.first_serves) /\
  exists w',
    download_track Sample.self Sample.anonymous Sample.first_serves = (Ok tt, w') /\
    read_file w' (Path [] [py "downloads"; py "My_Song.mp3"])
    = Some [x49; x44; x33; x04].
Proof.
  destruct (empty_artist_writes_under_root Sample.self Sample.anonymous)
    as (Hdir & _ & Hroot); [vm_compute; reflexivity |].
  destruct (Hroot Sample.first_serves [py "home"; py "downloads"])
    as (Hmk & _ & Hrun); [vm_compute; reflexivity .. |].
  split; [exact Hdir |]. split; [exact Hmk |].
  destruct (Hrun (Sample.after_failures [] Sample.anonymous Sample.first_serves)
              (Sample.after_call Sample.svc1 Sample.anonymous
                 (Sample.after_failures [] Sample.anonymous Sample.first_serves))
              [] Sample.svc1 [Sample.svc2; Sample.svc3])
    as (page & download & w' & Hpending & Hdone & Hread); [evaluate .. |].
  exists w'. split; [exact Hdone |].
  vm_compute in Hpending. injection Hpending as _ <-.
  exact Hread.
Defined.


(** * Further properties of [downloader.py] *)

Section StreamingRuns.

Implicit Types (f : gmap (list (list N)) node) (loc : list (list N)).

(** The write loop, exactly: it appends the received bytes and ends with
    the first failing read, if there is one. *)
Lemma write_chunks_exact body : forall loc data w,
  fs w !! loc = Some (File data) ->
  write_chunks loc body w =
  (match first_error body with Some e => Raise e | None => Ok tt end,
   with_fs (<[loc := File (data ++ received body)]> (fs w)) w).
Proof.
  induction body as [| ev rest IH]; intros loc data w Hf; simpl.
  - unfold ret. now rewrite app_nil_r, insert_id, with_fs_same.
  - destruct ev as [[| b chunk] | e].
    + unfold ret. now rewrite app_nil_r, insert_id, with_fs_same.
    + unfold bind at 1. unfold file_write at 1.
      rewrite (alter_append _ _ data) by assumption.
      rewrite (IH loc (data ++ b :: chunk)) by (simpl; apply lookup_insert_eq).
      simpl. now rewrite insert_insert_eq, <- app_assoc.
    + unfold raise. now rewrite app_nil_r, insert_id, with_fs_same.
Qed.

Lemma stream_exact out body w loc :
  resolve w out = inr loc -> node_at (fs w) loc <> Some Dir ->
  (h <- open_wb out ;; write_chunks h body ;;; ret true) w =
  (match first_error body with Some e => Raise e | None => Ok true end,
   with_fs (<[loc := File (received body)]> (fs w)) w).
Proof.
  intros H Hnd.
  assert (Hopen : open_wb out w = (Ok loc, with_fs (<[loc := File []]> (fs w)) w)).
  { unfold open_wb. rewrite H.
    destruct (node_at (fs w) loc) as [[d |] |]; congruence. }
  unfold bind. rewrite Hopen.
  rewrite (write_chunks_exact body loc []) by (simpl; apply lookup_insert_eq).
  simpl. rewrite insert_insert_eq. now destruct (first_error body).
Qed.

Lemma second_get_served self direct r rest w :
  session self = true ->
  pending w = GetResponse r :: rest ->
  session_get self (ret direct) w
  = (Ok r, with_net (requests w ++ [direct]) rest w).
Proof.
  intros Hs Hp. unfold session_get, bind, ret, send. now rewrite Hs, Hp.
Qed.

Lemma read_file_written w loc data out :
  resolve w out = inr loc -> node_at (fs w) loc <> Some Dir ->
  read_file (with_fs (<[loc := File data]> (fs w)) w) out = Some data.
Proof.
  intros Hr Hnd. unfold read_file.
  assert (Hr' : resolve (with_fs (<[loc := File data]> (fs w)) w) out = inr loc).
  { unfold resolve in *. simpl.
    eapply walk_dirs_agree; [| exact Hr]. now apply dirs_agree_insert_file. }
  rewrite Hr'. simpl.
  rewrite node_at_insert_eq by eauto using not_dir_not_root. reflexivity.
Qed.

End StreamingRuns.

Section NoSession.


End NoSession.



Section RequestCount.

Lemma at_most_refl n w : at_most n w w.
Proof. exists []. rewrite app_nil_r. split; [reflexivity | simpl; lia]. Qed.

Lemma at_most_trans n m w1 w2 w3 :
  at_most n w1 w2 -> at_most m w2 w3 -> at_most (n + m) w1 w3.
Proof.
  intros (l1 & H1 & Hl1) (l2 & H2 & Hl2). exists (l1 ++ l2).
  rewrite H2, H1, <- app_assoc, length_app. split; [reflexivity | lia].
Qed.

Lemma at_most_weaken n m w w' : (n <= m)%nat -> at_most n w w' -> at_most m w w'.
Proof. intros Hle (l & H & Hl). exists l. split; [assumption | lia]. Qed.

Lemma at_most_same n w w' : requests w' = requests w -> at_most n w w'.
Proof. intros H. exists []. rewrite app_nil_r. split; [assumption | simpl; lia]. Qed.

Lemma session_get_at_most self arg w r w' :
  (forall w0, exists x, arg w0 = (x, w0)) ->
  session_get self arg w = (r, w') -> at_most 1 w w'.
Proof.
  intros Harg. unfold session_get, bind, ret, raise, send.
  destruct (session self).
  - destruct (Harg w) as [x Hx]. rewrite Hx. destruct x as [target | e].
    + destruct (pending w) as [| [e | resp] rest]; intros [= <- <-];
        exists [target]; simpl; split; (reflexivity || lia).
    + intros [= <- <-]. apply at_most_refl.
  - intros [= <- <-]. apply at_most_refl.
Qed.

Lemma stream_requests out body w r w' :
  (h <- open_wb out ;; write_chunks h body ;;; ret true) w = (r, w') ->
  requests w' = requests w.
Proof.
  intros H. destruct (resolve w out) as [e | loc] eqn:Hr.
  - rewrite (stream_unresolved _ _ _ _ Hr) in H. now injection H as <- <-.
  - assert (Hkind : node_at (fs w) loc = Some Dir \/ node_at (fs w) loc <> Some Dir)
      by (destruct (node_at (fs w) loc) as [[d |] |]; auto; right; discriminate).
    destruct Hkind as [Hd | Hnd].
    + rewrite (stream_directory _ _ _ _ Hr Hd) in H. now injection H as <- <-.
    + rewrite (stream_exact _ _ _ _ Hr Hnd) in H. now injection H as <- <-.
Qed.

Lemma resolver_body_at_most s self u out w r w' :
  resolver_body s self u out w = (r, w') -> at_most 2 w w'.
Proof.
  unfold resolver_body. intros H.
  apply bind_inv in H as [(page & w1 & Hget & H) | (e & Hget & ->)].
  2:{ apply (at_most_weaken 1); [lia |].
      eapply session_get_at_most; [| exact Hget]. apply conversion_url_pure. }
  apply session_get_at_most in Hget; [| apply conversion_url_pure].
  assert (Hstop : w' = w1 -> at_most 2 w w')
    by (intros ->; now apply (at_most_weaken 1); [lia |]).
  destruct (negb (status page =? 200)%Z).
  { injection H as <- <-. now apply Hstop. }
  apply bind_inv in H as [(soup & w2 & Htext & H) | (e & Htext & ->)];
    unfold response_text in Htext; destruct (text page) as [ex | doc];
    try discriminate; injection Htext as <- <-.
  2:{ now apply Hstop. }
  destruct (Soup.find doc (py "a") (link_class s)) as [button |].
  2:{ injection H as <- <-. now apply Hstop. }
  destruct (Soup.get (el_attrs button) (py "href")) as [[| c direct] |].
  1,3: injection H as <- <-; now apply Hstop.
  apply bind_inv in H as [(download & w2 & Hget2 & H) | (e & Hget2 & ->)];
    (apply session_get_at_most in Hget2; [| intros; apply ret_pure]).
  2:{ apply (at_most_trans 1 1 w w1 w'); assumption. }
  apply (at_most_trans 1 1 w w1 w'); [assumption |].
  destruct (negb (status download =? 200)%Z).
  { now injection H as <- <-. }
  apply stream_requests in H. destruct Hget2 as (l & Hl & Hlen).
  exists l. split; [congruence | assumption].
Qed.

Lemma try_site_at_most s self u out w r w' :
  try_site s self u out w = (r, w') -> at_most 2 w w'.
Proof.
  unfold try_site, try_except.
  destruct (resolver_body s self u out w) as [[b | e] w1] eqn:Hbody;
    apply resolver_body_at_most in Hbody.
  - now intros [= <- <-].
  - unfold bind, logger_error, ret. intros [= <- <-].
    destruct Hbody as (l & Hl & Hlen). exists l. simpl. auto.
Qed.

Lemma fail_all_at_most self u out services :
  Forall (from_site self) services ->
  forall w w1,
    fail_all services u out w = Some w1 ->
    at_most (2 * length services) w w1.
Proof.
  induction 1 as [| s rest Hs _ IH]; intros w w1 Hfail; simpl in Hfail.
  - injection Hfail as ->. apply at_most_refl.
  - destruct (call_service s u out w) as [r w'] eqn:Hcall.
    destruct (reports_failure r); [| discriminate].
    destruct (call_site _ _ _ _ _ _ _ Hs Hcall) as (site & w'' & Hrun & ->).
    apply try_site_at_most in Hrun. apply IH in Hfail.
    replace (2 * length (s :: rest))%nat with (2 + 2 * length rest)%nat
      by (simpl; lia).
    eapply at_most_trans; [| exact Hfail].
    destruct Hrun as (l & Hl & Hlen). exists l.
    split; [| assumption]. now destruct r.
Qed.

End RequestCount.

Section Requests.


End Requests.





Section TrackRuns.

Variables (self : downloader) (t : track).

(** The three ways [download_track] ends. *)
Lemma download_track_with_ends services w :
  (exists e w', mkdir_exist_ok (artist_dir_of self t) w = (Raise e, w') /\
                download_track_with services self t w = (Raise e, w')) \/
  (exists w0, mkdir_exist_ok (artist_dir_of self t) w = (Ok tt, w0) /\
              exists_in w0 (output_path_of self t) = true /\
              download_track_with services self t w =
              (Ok tt, logged INFO (TrackAlreadyExists (output_path_of self t)) w0)) \/
  (exists w0, mkdir_exist_ok (artist_dir_of self t) w = (Ok tt, w0) /\
              exists_in w0 (output_path_of self t) = false /\
              download_track_with services self t w =
              for_services services t (output_path_of self t) w0).
Proof.
  destruct (mkdir_exist_ok (artist_dir_of self t) w) as [[[] | e] w0] eqn:Hmk.
  - destruct (exists_in w0 (output_path_of self t)) eqn:Hex.
    + right. left. exists w0. split_and!; auto.
      now apply download_track_with_skip.
    + right. right. exists w0. split_and!; auto.
      now apply download_track_with_enter.
  - left. exists e, w0. split; [reflexivity |].
    now apply download_track_with_raise.
Qed.

Lemma firstn_names (pre post : list service) (s : service) :
  map svc_name pre ++ [svc_name s]
  = firstn (S (length pre)) (map svc_name (pre ++ s :: post)).
Proof.
  induction pre as [| p pre IH]; simpl; [reflexivity |].
  f_equal. exact IH.
Qed.

End TrackRuns.

(** X3.  One call of a resolver issues at most two requests, and one call
    of [download_track] at most six. *)
Theorem request_budget (self : downloader) :
  (forall s u out w,
     exists l, requests (snd (try_site s self u out w)) = requests w ++ l /\
               (length l <= 2)%nat) /\
  (forall t w,
     exists l, requests (snd (download_track self t w)) = requests w ++ l /\
               (length l <= 6)%nat).
Proof.
  split.
  - intros s u out w. destruct (try_site s self u out w) as [r w'] eqn:H.
    exact (try_site_at_most _ _ _ _ _ _ _ H).
  - intros t w. unfold download_track.
    destruct (download_track_with_ends self t (download_services self) w)
      as [(e & w' & Hmk & ->) | [(w0 & Hmk & _ & ->) | (w0 & Hmk & _ & ->)]];
      destruct (mkdir_frame _ _ _ _ Hmk) as (_ & Hreq & _).
    + simpl. apply (at_most_same 6). exact Hreq.
    + simpl. apply (at_most_same 6). exact Hreq.
    + change (at_most 6 w
                (snd (for_services (download_services self) t (output_path_of self t) w0))).
      apply (at_most_trans 0 6 w w0); [now apply at_most_same |].
      destruct (for_services_ends t (output_path_of self t) (download_services self) w0)
        as [(pre & s & post & w1 & w2 & Hsplit & Hf & Hc & ->) | (w1 & Hf & ->)].
      * destruct (from_site_part _ _ _ _ Hsplit) as [Hpre Hs].
        apply (fail_all_at_most self _ _ _ Hpre) in Hf.
        destruct (call_site _ _ _ _ _ _ _ Hs Hc) as (site & w'' & Hrun & ->).
        apply try_site_at_most in Hrun.
        assert (Hlen : (length pre + 1 <= 3)%nat).
        { apply (f_equal (@length service)) in Hsplit.
          rewrite length_app in Hsplit. simpl in Hsplit. lia. }
        apply (at_most_weaken (2 * length pre + 2)); [lia |].
        eapply at_most_trans; [exact Hf |].
        destruct Hrun as (l & Hl & Hll). exists l. simpl. auto.
      * apply (fail_all_at_most self _ _ _ (download_services_from_site self)) in Hf.
        destruct Hf as (l & Hl & Hll). exists l. simpl in *. split; [assumption | lia].
Qed.

(** X4.  The services are tried in the order of the list, each at most
    once and none before all the earlier ones: the services called in one
    run of [download_track] are always the first [k] of the list, for some
    [k]; for the three resolvers of the downloader, the first [k] of
    scdownloader, soundcloudmp3, downloadsound. *)
Theorem services_tried_in_order
    (services : list service) (self : downloader) (t : track) (w : world) :
  (exists k,
     calls (snd (download_track_with services self t w))
     = calls w ++ firstn k (map svc_name services)) /\
  (exists k,
     calls (snd (download_track self t w)) = calls w ++ firstn k service_names).
Proof.
  assert (Hgen : forall svcs, exists k,
            calls (snd (download_track_with svcs self t w))
            = calls w ++ firstn k (map svc_name svcs)).
  { intros svcs.
    destruct (download_track_with_ends self t svcs w)
      as [(e & w' & Hmk & ->) | [(w0 & Hmk & _ & ->) | (w0 & Hmk & _ & ->)]];
      destruct (mkdir_frame _ _ _ _ Hmk) as (_ & _ & _ & Hcalls & _).
    - exists 0%nat. simpl. now rewrite app_nil_r.
    - exists 0%nat. simpl. now rewrite app_nil_r.
    - destruct (for_services_ends t (output_path_of self t) svcs w0)
        as [(pre & s & post & w1 & w2 & -> & Hf & Hc & ->) | (w1 & Hf & ->)].
      + exists (S (length pre)). simpl snd. cbn [logged calls with_log].
        rewrite (call_service_calls _ _ _ _ _ _ Hc).
        rewrite (fail_all_calls _ _ _ _ _ Hf), Hcalls.
        now rewrite <- app_assoc, (firstn_names pre post s).
      + exists (length svcs). simpl snd. cbn [logged calls with_log].
        rewrite (fail_all_calls _ _ _ _ _ Hf), Hcalls.
        now rewrite <- (length_map svc_name), firstn_all. }
  split; [apply Hgen |]. apply (Hgen (download_services self)).
Qed.

Section Reruns.

Lemma read_file_exists w p data : read_file w p = Some data -> exists_in w p = true.
Proof.
  unfold read_file, exists_in. destruct (resolve w p) as [e | loc]; [discriminate |].
  destruct (node_at (fs w) loc) as [[d |] |]; try discriminate.
  intros _. apply bool_decide_eq_true_2. eauto.
Qed.

Lemma skip_existing services self t w :
  exists_in w (output_path_of self t) = true ->
  download_track_with services self t w =
  (Ok tt, logged INFO (TrackAlreadyExists (output_path_of self t)) w).
Proof.
  intros Hex. apply download_track_with_skip; [now apply mkdir_of_existing | exact Hex].
Qed.

End Reruns.

(** X5.  The existence of the destination is what makes a second run
    cheap: after a run in which one of the three resolvers succeeded, calling
    [download_track] again for the same track issues no request, calls no
    resolver, leaves the filesystem as it is and only logs that the track
    already exists. *)
Theorem downloaded_track_is_skipped_next_time
    (self : downloader) (t : track) (w w0 w1 w2 : world)
    (pre post : list service) (s : service) :
  download_services self = pre ++ s :: post ->
  mkdir_exist_ok (artist_dir_of self t) w = (Ok tt, w0) ->
  exists_in w0 (output_path_of self t) = false ->
  fail_all pre (url t) (output_path_of self t) w0 = Some w1 ->
  call_service s (url t) (output_path_of self t) w1 = (Ok true, w2) ->
  exists w' w'',
    download_track self t w = (Ok tt, w') /\
    download_track self t w' = (Ok tt, w'') /\
    requests w'' = requests w' /\ calls w'' = calls w' /\ fs w'' = fs w' /\
    log w'' = log w' ++ [(INFO, TrackAlreadyExists (output_path_of self t))].
Proof.
  intros Hsplit Hmk Hex Hfail Hcall.
  destruct (download_track_served self t w w0 w1 w2 pre s post Hsplit Hmk Hex Hfail Hcall)
    as (page & download & w' & _ & Hrun & Hread).
  apply read_file_exists in Hread.
  exists w'. eexists. split; [exact Hrun |]. split.
  - unfold download_track. now apply skip_existing.
  - split_and!; reflexivity.
Qed.

Lemma downloaded_track_is_skipped_next_time_witness :
  exists w' w'',
    download_track Sample.self Sample.my_song Sample.first_serves = (Ok tt, w') /\
    download_track Sample.self Sample.my_song w' = (Ok tt, w'') /\
    requests w'' = requests w' /\ fs w'' = fs w'.
Proof.
  destruct (downloaded_track_is_skipped_next_time
              Sample.self Sample.my_song Sample.first_serves
              (Sample.after_mkdir Sample.my_song Sample.first_serves)
              (Sample.after_failures [] Sample.my_song
                 (Sample.after_mkdir Sample.my_song Sample.first_serves))
              (Sample.after_call Sample.svc1 Sample.my_song
                 (Sample.after_failures [] Sample.my_song
                    (Sample.after_mkdir Sample.my_song Sample.first_serves)))
              [] [Sample.svc2; Sample.svc3] Sample.svc1)
    as (w' & w'' & H1 & H2 & Hreq & _ & Hfs & _); [evaluate .. |].
  exists w', w''. auto.
Defined.

(** X6.  The same check makes a broken download permanent: when every
    service failed but one of them left something at the destination (a body
    that broke off while it was streamed), the next call of [download_track]
    for that track finds the destination, tries no service and issues no
    request. *)
Theorem partial_file_blocks_retry
    (services : list service) (self : downloader) (t : track) (w w0 w1 : world) :
  mkdir_exist_ok (artist_dir_of self t) w = (Ok tt, w0) ->
  exists_in w0 (output_path_of self t) = false ->
  fail_all services (url t) (output_path_of self t) w0 = Some w1 ->
  exists_in w1 (output_path_of self t) = true ->
  exists w' w'',
    download_track_with services self t w = (Ok tt, w') /\
    log w' = log w1 ++ [(ERROR, FailedToDownload (title t))] /\
    download_track_with services self t w' = (Ok tt, w'') /\
    requests w'' = requests w' /\ calls w'' = calls w' /\ fs w'' = fs w' /\
    log w'' = log w' ++ [(INFO, TrackAlreadyExists (output_path_of self t))].
Proof.
  intros Hmk Hex Hfail Hleft.
  exists (logged ERROR (FailedToDownload (title t)) w1). eexists. split_and!.
  - rewrite (download_track_with_enter _ _ _ _ _ Hmk Hex).
    now apply for_services_exhausted.
  - reflexivity.
  - apply skip_existing. rewrite <- Hleft. now apply exists_in_frame.
  - reflexivity.
  - reflexivity.
  - reflexivity.
  - reflexivity.
Qed.

Lemma partial_file_blocks_retry_witness :
  exists w' w'',
    download_track Sample.self Sample.my_song Sample.broken_stream = (Ok tt, w') /\
    download_track Sample.self Sample.my_song w' = (Ok tt, w'') /\
    requests w'' = requests w' /\ calls w'' = calls w'.
Proof.
  destruct (partial_file_blocks_retry
              (download_services Sample.self) Sample.self Sample.my_song
              Sample.broken_stream
              (Sample.after_mkdir Sample.my_song Sample.broken_stream)
              (Sample.after_failures (download_services Sample.self) Sample.my_song
                 (Sample.after_mkdir Sample.my_song Sample.broken_stream)))
    as (w' & w'' & H1 & _ & H2 & Hreq & Hcalls & _); [evaluate .. |].
  exists w', w''. auto.
Defined.

Section Below.

Lemma output_resolves_below self t w loc :
  resolve w (artist_dir_of self t) = inr loc ->
  node_at (fs w) loc = Some Dir ->
  resolve w (output_path_of self t)
  = inr (loc ++ [_sanitize_filename (title t) ++ py ".mp3"]).
Proof.
  unfold resolve. rewrite output_path_shape. cbn [root parts].
  intros Hdir Hnode. rewrite walk_snoc, Hdir, Hnode.
  unfold step_into. now rewrite file_name_not_dotdot.
Qed.

End Below.

(** X7.  The file name is always one component and never a step to the
    parent: whatever the title, the destination resolves to the file name
    directly inside the directory of the artist. *)
Theorem file_lands_in_artist_directory
    (self : downloader) (t : track) (w : world) (loc : list (list N)) :
  resolve w (artist_dir_of self t) = inr loc ->
  node_at (fs w) loc = Some Dir ->
  resolve w (output_path_of self t)
  = inr (loc ++ [_sanitize_filename (title t) ++ py ".mp3"]).
Proof. apply output_resolves_below. Qed.

Lemma file_lands_in_artist_directory_witness :
  resolve (Sample.after_mkdir Sample.my_song Sample.first_serves)
    (output_path_of Sample.self Sample.my_song)
  = inr ([py "home"; py "downloads"; py "DJ_Test"]
         ++ [_sanitize_filename (title Sample.my_song) ++ py ".mp3"]).
Proof.
  apply (file_lands_in_artist_directory Sample.self Sample.my_song
           (Sample.after_mkdir Sample.my_song Sample.first_serves)
           [py "home"; py "downloads"; py "DJ_Test"]);
    vm_compute; reflexivity.
Defined.

(** X8.  Dots are not among the deleted characters.  An artist that
    sanitizes to two dots makes the directory of the artist the parent of
    the download directory, and the file is written there, next to the
    download directory and not inside it; an artist that sanitizes to one
    dot makes it the download directory itself. *)
Theorem dots_artist_directory
    (self : downloader) (t : track) (w : world) (loc : list (list N)) :
  resolve w (download_dir self) = inr loc ->
  node_at (fs w) loc = Some Dir ->
  (_sanitize_filename (artist t) = [dot] ->
   artist_dir_of self t = download_dir self) /\
  (_sanitize_filename (artist t) = [dot; dot] ->
   resolve w (artist_dir_of self t) = inr (removelast loc) /\
   (node_at (fs w) (removelast loc) = Some Dir ->
    resolve w (output_path_of self t)
    = inr (removelast loc ++ [_sanitize_filename (title t) ++ py ".mp3"]))).
Proof.
  intros Hres Hnode. split.
  - intros Hdot. unfold artist_dir_of.
    rewrite joinpath_segment by apply sanitize_no_slash.
    rewrite Hdot. simpl. rewrite app_nil_r. now destruct (download_dir self).
  - intros Hdots.
    assert (Hup : resolve w (artist_dir_of self t) = inr (removelast loc)).
    { unfold resolve in *. unfold artist_dir_of.
      rewrite joinpath_segment by apply sanitize_no_slash.
      rewrite Hdots. cbn [root parts is_component]. simpl.
      rewrite walk_snoc, Hres, Hnode. reflexivity. }
    split; [exact Hup |]. intros Hparent.
    now apply output_resolves_below.
Qed.

Lemma dots_artist_directory_witness :
  resolve Sample.first_serves
    (output_path_of Sample.self
       (Track (py "My Song") (py "..") (py "https://example.com/t/3")))
  = inr [py "home"; py "My_Song.mp3"].
Proof.
  destruct (dots_artist_directory Sample.self
              (Track (py "My Song") (py "..") (py "https://example.com/t/3"))
              Sample.first_serves [py "home"; py "downloads"])
    as [_ Hdots]; [vm_compute; reflexivity .. |].
  destruct Hdots as [_ Hout]; [vm_compute; reflexivity |].
  rewrite Hout; vm_compute; reflexivity.
Defined.

Section SanitizerMore.

Lemma re_sub_app a b : re_sub_invalid (a ++ b) = re_sub_invalid a ++ re_sub_invalid b.
Proof. unfold re_sub_invalid. apply List.filter_app. Qed.

Lemma re_sub_replace x : re_sub_invalid (replace_spaces x) = replace_spaces (re_sub_invalid x).
Proof.
  induction x as [| c x IH]; simpl; [reflexivity |].
  destruct (N.eqb_spec c space) as [-> | Hne].
  - change (is_invalid underscore) with false. change (is_invalid space) with false.
    simpl. now rewrite IH.
  - destruct (is_invalid c); simpl; rewrite IH; [reflexivity |].
    now destruct (N.eqb_spec c space).
Qed.

Lemma replace_replace x : replace_spaces (replace_spaces x) = replace_spaces x.
Proof.
  induction x as [| c x IH]; simpl; [reflexivity |]. rewrite IH. f_equal.
  destruct (N.eqb_spec c space) as [-> | Hne]; [reflexivity |].
  now destruct (N.eqb_spec c space).
Qed.

End SanitizerMore.

(** X9.  The names the sanitizer leaves unchanged are exactly those of at
    most 200 characters with none of the nine deleted characters and no
    space. *)
Theorem sanitize_keeps_exactly_clean_names (x : pystr) :
  _sanitize_filename x = x <->
  Forall (fun c => ~ In c invalid_chars /\ c <> space) x /\ (length x <= 200)%nat.
Proof.
  split.
  - intros H. rewrite <- H. split; [apply sanitize_clean | apply sanitize_length].
  - intros [Hc Hl]. now apply sanitize_fixpoint.
Qed.

(** X10.  Different names can sanitize to the same name, and then to the
    same destination: a deleted character anywhere makes no difference, a
    space and an underscore are the same, and nothing counts after the
    first 200 characters kept.  Two tracks whose artists and titles
    sanitize alike have one destination. *)
Theorem sanitize_collisions :
  (forall a b c, In c invalid_chars ->
     _sanitize_filename (a ++ c :: b) = _sanitize_filename (a ++ b)) /\
  (forall x, _sanitize_filename (replace_spaces x) = _sanitize_filename x) /\
  (forall x y, (200 <= length (_sanitize_filename x))%nat ->
     _sanitize_filename (x ++ y) = _sanitize_filename x) /\
  (forall self t1 t2,
     _sanitize_filename (artist t1) = _sanitize_filename (artist t2) ->
     _sanitize_filename (title t1) = _sanitize_filename (title t2) ->
     output_path_of self t1 = output_path_of self t2).
Proof.
  split_and!.
  - intros a b c Hc. apply is_invalid_In in Hc. unfold _sanitize_filename.
    rewrite !re_sub_app. simpl. now rewrite Hc.
  - intros x. unfold _sanitize_filename. now rewrite re_sub_replace, replace_replace.
  - intros x y. unfold _sanitize_filename. rewrite length_firstn.
    intros Hlen. rewrite re_sub_app. unfold replace_spaces in *.
    rewrite map_app, firstn_app.
    rewrite length_map in *.
    replace (200 - length (re_sub_invalid x))%nat with 0%nat by lia.
    simpl. now rewrite app_nil_r.
  - intros self t1 t2 Ha Ht. unfold output_path_of, artist_dir_of. now rewrite Ha, Ht.
Qed.

Lemma sanitize_collisions_witness :
  _sanitize_filename (py "My" ++ 47%N :: py "Song")
  = _sanitize_filename (py "My" ++ py "Song") /\
  output_path_of Sample.self (Track (py "My_Song") (py "DJ Test?") (py "u"))
  = output_path_of Sample.self Sample.my_song.
Proof.
  destruct sanitize_collisions as (Hdel & _ & _ & Hpath). split.
  - apply Hdel. simpl. auto 10.
  - apply Hpath; vm_compute; reflexivity.
Defined.


(** * Properties of [main.py] *)

Section Directories.

Lemma mkdir_unchanged p w loc :
  resolve w p = inr loc -> node_at (fs w) loc = Some Dir ->
  mkdir_exist_ok p w = (Ok tt, w).
Proof. intros Hr Hn. unfold mkdir_exist_ok. now rewrite Hr, Hn. Qed.

Lemma mkdir_raise_unchanged p w e w' :
  mkdir_exist_ok p w = (Raise e, w') -> w' = w.
Proof.
  unfold mkdir_exist_ok. destruct (resolve w p) as [e0 | loc].
  - now intros [= _ <-].
  - destruct (node_at (fs w) loc) as [[d |] |]; now intros [= <-] || intros [= _ <-].
Qed.

Lemma extends_insert_new f loc n :
  node_at f loc = None -> extends f (<[loc := n]> f).
Proof.
  intros Hnone l m Hl. destruct (decide (loc = l)) as [<- | Hne].
  - congruence.
  - now rewrite node_at_insert_ne.
Qed.

Lemma extends_trans f1 f2 f3 : extends f1 f2 -> extends f2 f3 -> extends f1 f3.
Proof. intros H12 H23 l n Hl. apply H23, H12, Hl. Qed.

(** Making one plain name in the working directory. *)
Lemma mkdir_plain d w w' :
  plain_name d ->
  mkdir_exist_ok (parse d) w = (Ok tt, w') ->
  node_at (fs w) (cwd w) = Some Dir /\
  node_at (fs w') (cwd w ++ [d]) = Some Dir /\
  cwd w' = cwd w /\ log w' = log w /\
  requests w' = requests w /\ pending w' = pending w /\
  extends (fs w) (fs w').
Proof.
  intros [Hparse Hnot]. rewrite Hparse.
  unfold mkdir_exist_ok, resolve. cbn [root parts walk].
  destruct (node_at (fs w) (cwd w)) as [[d0 |] |] eqn:Hcwd; try discriminate.
  unfold step_into. rewrite Hnot.
  destruct (node_at (fs w) (cwd w ++ [d])) as [[d1 |] |] eqn:Hd; try discriminate;
    intros [= <-]; simpl; split_and!; auto.
  - intros l n Hl. exact Hl.
  - apply node_at_insert_eq. intros Hnil. now apply app_eq_nil in Hnil as [_ [=]].
  - now apply extends_insert_new.
Qed.

Lemma mkdir_each_ok names : Forall plain_name names ->
  forall w w',
    Main.mkdir_each names w = (Ok tt, w') ->
    cwd w' = cwd w /\ log w' = log w /\
    requests w' = requests w /\ pending w' = pending w /\
    extends (fs w) (fs w') /\
    Forall (fun d => node_at (fs w') (cwd w ++ [d]) = Some Dir) names /\
    (names <> [] -> node_at (fs w) (cwd w) = Some Dir).
Proof.
  induction 1 as [| d rest Hd _ IH]; intros w w' Hrun; simpl in Hrun.
  - injection Hrun as <-. split_and!; auto; congruence.
  - apply bind_inv in Hrun as [([] & w1 & Hmk & Hrun) | (e & _ & [=])].
    destruct (mkdir_plain _ _ _ Hd Hmk) as (Hcwd & Hnew & Hc1 & Hl1 & Hr1 & Hp1 & He1).
    destruct (IH _ _ Hrun) as (Hc2 & Hl2 & Hr2 & Hp2 & He2 & Hall & _).
    split_and!; try congruence.
    + eapply extends_trans; eassumption.
    + constructor.
      * apply He2. exact Hnew.
      * rewrite <- Hc1. exact Hall.
Qed.

Lemma mkdir_each_again names : Forall plain_name names ->
  forall w,
    node_at (fs w) (cwd w) = Some Dir ->
    Forall (fun d => node_at (fs w) (cwd w ++ [d]) = Some Dir) names ->
    Main.mkdir_each names w = (Ok tt, w).
Proof.
  induction 1 as [| d rest [Hparse Hnot] _ IH]; intros w Hcwd Hall; simpl.
  - reflexivity.
  - inversion Hall as [| ? ? Hd Hrest]; subst.
    unfold bind. rewrite (mkdir_unchanged (parse d) w (cwd w ++ [d])); auto.
    rewrite Hparse. unfold resolve. cbn [root parts walk]. rewrite Hcwd.
    unfold step_into. now rewrite Hnot.
Qed.

Lemma setup_names_plain :
  Forall plain_name [py "downloads"; py "logs"; py "data"].
Proof. repeat constructor; vm_compute; reflexivity. Qed.

(** After [setup_directories] the working directory and [downloads] are
    directories. *)
Lemma setup_directories_dirs w w' :
  Main.setup_directories w = (Ok tt, w') ->
  node_at (fs w') (cwd w') = Some Dir /\
  node_at (fs w') (cwd w' ++ [py "downloads"]) = Some Dir.
Proof.
  intros Hrun. unfold Main.setup_directories in Hrun.
  destruct (mkdir_each_ok _ setup_names_plain _ _ Hrun)
    as (Hcwd & _ & _ & _ & Hext & Hall & Hroot).
  rewrite Hcwd. split.
  - apply Hext, Hroot. discriminate.
  - now inversion Hall.
Qed.

End Directories.

(** X11.  When [setup_directories] returns, the directories [downloads],
    [logs] and [data] exist in the working directory, everything that was
    on disk is still there unchanged, nothing was logged or requested, and
    running it again changes nothing. *)
Theorem setup_directories_once (w w' : world) :
  Main.setup_directories w = (Ok tt, w') ->
  Forall (fun d => node_at (fs w') (cwd w ++ [d]) = Some Dir)
         [py "downloads"; py "logs"; py "data"] /\
  extends (fs w) (fs w') /\
  cwd w' = cwd w /\ log w' = log w /\ requests w' = requests w /\
  Main.setup_directories w' = (Ok tt, w').
Proof.
  intros Hrun. unfold Main.setup_directories in *.
  destruct (mkdir_each_ok _ setup_names_plain _ _ Hrun)
    as (Hcwd & Hlog & Hreq & _ & Hext & Hall & Hroot).
  split_and!; auto.
  apply mkdir_each_again; [apply setup_names_plain | | now rewrite Hcwd].
  rewrite Hcwd. apply Hext, Hroot. discriminate.
Qed.

Lemma setup_directories_once_witness :
  Forall (fun d => node_at (fs (snd (Main.setup_directories Sample.no_root)))
                     (cwd Sample.no_root ++ [d]) = Some Dir)
         [py "downloads"; py "logs"; py "data"].
Proof.
  destruct (setup_directories_once Sample.no_root
              (snd (Main.setup_directories Sample.no_root))) as (Hall & _).
  - apply (run_to (Main.setup_directories Sample.no_root) tt).
    vm_compute. reflexivity.
  - exact Hall.
Defined.

Section ProcessTracks.

Lemma mkdir_dirs_grow p w r w' :
  mkdir_exist_ok p w = (r, w') -> dirs_grow (fs w) (fs w').
Proof.
  unfold mkdir_exist_ok. destruct (resolve w p) as [e | loc].
  - intros [= _ <-] l Hl. exact Hl.
  - destruct (node_at (fs w) loc) as [[d |] |] eqn:Hn; intros [= _ <-]; simpl;
      intros l Hl; try exact Hl.
    destruct (decide (loc = l)) as [<- | Hne]; [congruence |].
    now rewrite node_at_insert_ne.
Qed.

Lemma for_services_sites_cwd self services t out w r w' :
  Forall (from_site self) services ->
  for_services services t out w = (r, w') ->
  cwd w' = cwd w /\ (length (log w) < length (log w'))%nat.
Proof.
  intros Hall Hrun.
  assert (Hfail : forall pre v v1, Forall (from_site self) pre ->
            fail_all pre (url t) out v = Some v1 ->
            cwd v1 = cwd v /\ (length (log v) <= length (log v1))%nat).
  { clear. induction pre as [| p pre IH]; intros v v1 Hpre Hf; simpl in Hf.
    - injection Hf as ->. auto.
    - inversion Hpre as [| ? ? Hp Hpre']; subst.
      destruct (call_service p (url t) out v) as [r0 v0] eqn:Hcall.
      destruct (reports_failure r0); [| discriminate].
      destruct (call_site _ _ _ _ _ _ _ Hp Hcall) as (site & v'' & Hsite & ->).
      destruct (try_site_outcome _ _ _ _ _ _ _ Hsite)
        as (b & -> & Hcwd & _ & _ & Hlog & _).
      apply IH in Hf as [Hc Hl]; [| assumption]. simpl in *.
      split; [congruence |].
      destruct Hlog as [Hsame | (_ & e & Happ)].
      + now rewrite <- Hsame.
      + rewrite Happ, length_app in Hl. simpl in Hl. lia. }
  destruct (for_services_ends t out services w)
    as [(pre & s & post & w1 & w2 & -> & Hf & Hc & Hend) | (w1 & Hf & Hend)];
    rewrite Hend in Hrun; injection Hrun as <- <-.
  - apply List.Forall_app in Hall as [Hpre Hrest].
    assert (Hs : from_site self s) by now inversion Hrest.
    destruct (Hfail _ _ _ Hpre Hf) as [Hc1 Hl1].
    destruct (call_site _ _ _ _ _ _ _ Hs Hc) as (site & w'' & Hsite & ->).
    destruct (try_site_outcome _ _ _ _ _ _ _ Hsite)
      as (b & _ & Hcwd & _ & _ & Hlog & _).
    simpl. rewrite length_app. simpl. split; [congruence |].
    destruct Hlog as [Hsame | (_ & e & Happ)].
    + rewrite Hsame. lia.
    + rewrite Happ, length_app. simpl. lia.
  - destruct (Hfail _ _ _ Hall Hf) as [Hc1 Hl1].
    simpl. rewrite length_app. simpl. split; [assumption | lia].
Qed.

(** A run of [download_track] keeps the working directory and every
    directory; when it returns it has logged something, when it raises it
    has changed nothing. *)
Lemma download_track_keeps self t w r w' :
  download_track self t w = (r, w') ->
  cwd w' = cwd w /\ dirs_grow (fs w) (fs w') /\
  match r with
  | Ok _ => (length (log w) < length (log w'))%nat
  | Raise e => w' = w /\ mkdir_exist_ok (artist_dir_of self t) w = (Raise e, w)
  end.
Proof.
  unfold download_track. intros Hrun.
  destruct (download_track_with_ends self t (download_services self) w)
    as [(e & w1 & Hmk & Hend) | [(w0 & Hmk & _ & Hend) | (w0 & Hmk & _ & Hend)]];
    rewrite Hend in Hrun.
  - injection Hrun as <- <-.
    pose proof (mkdir_raise_unchanged _ _ _ _ Hmk) as ->.
    split_and!; auto. intros l Hl. exact Hl.
  - injection Hrun as <- <-.
    destruct (mkdir_frame _ _ _ _ Hmk) as (Hlog & _ & _ & _ & Hcwd).
    split_and!; simpl; auto.
    + eapply mkdir_dirs_grow; eassumption.
    + rewrite length_app, Hlog. simpl. lia.
  - destruct (mkdir_frame _ _ _ _ Hmk) as (Hlog & _ & _ & _ & Hcwd).
    pose proof (mkdir_dirs_grow _ _ _ _ Hmk) as Hgrow.
    destruct (for_services_sites self _ _ _ _ _ _
                (download_services_from_site self) Hrun) as [-> Hsame].
    destruct (for_services_sites_cwd self _ _ _ _ _ _
                (download_services_from_site self) Hrun) as [Hc Hl].
    split_and!; [congruence | | rewrite <- Hlog; exact Hl].
    intros l Hl0. apply Hsame, Hgrow, Hl0.
Qed.

(** With [downloads] in place in the working directory, in the filesystem
    model the directory of an artist can only fail to be made because a
    file is in its place. *)
Lemma artist_mkdir_raises_file_exists self t w e w' :
  download_dir self = parse (py "downloads") ->
  node_at (fs w) (cwd w) = Some Dir ->
  node_at (fs w) (cwd w ++ [py "downloads"]) = Some Dir ->
  mkdir_exist_ok (artist_dir_of self t) w = (Raise e, w') ->
  e = FileExistsError.
Proof.
  intros Hdd Hcwd Hdown. rewrite artist_dir_shape, Hdd.
  change (parse (py "downloads")) with (Path [] [py "downloads"]).
  cbn [root parts]. unfold parse_parts.
  rewrite split_slash_free by apply sanitize_no_slash.
  unfold mkdir_exist_ok, resolve. cbn [root parts].
  cbn [List.filter]. destruct (is_component (_sanitize_filename (artist t))).
  - cbn [app walk]. rewrite Hcwd.
    change (step_into (py "downloads") (cwd w)) with (cwd w ++ [py "downloads"]).
    rewrite Hdown.
    destruct (node_at (fs w) (step_into _ _)) as [[d |] |]; congruence.
  - cbn [app walk]. rewrite Hcwd.
    change (step_into (py "downloads") (cwd w)) with (cwd w ++ [py "downloads"]).
    rewrite Hdown. discriminate.
Qed.

Lemma for_tracks_only_file_exists dl tracks : forall a,
  download_dir dl = parse (py "downloads") ->
  node_at (fs (Main.sys a)) (cwd (Main.sys a)) = Some Dir ->
  node_at (fs (Main.sys a)) (cwd (Main.sys a) ++ [py "downloads"]) = Some Dir ->
  Forall (fun rec => exists ttl,
            rec = (ERROR, Main.ErrorDownloadingTrack ttl FileExistsError))
         (Main.main_log a) ->
  Forall (fun rec => exists ttl,
            rec = (ERROR, Main.ErrorDownloadingTrack ttl FileExistsError))
         (Main.main_log (Main.for_tracks dl tracks a)).
Proof.
  induction tracks as [| t rest IH]; intros a Hdd Hcwd Hdown Hlog; simpl.
  - exact Hlog.
  - destruct (download_track dl t (Main.sys a)) as [[u | e] w'] eqn:Hrun;
      destruct (download_track_keeps _ _ _ _ _ Hrun) as (Hc & Hgrow & Hr).
    + apply IH; simpl; auto.
      * rewrite Hc. now apply Hgrow.
      * rewrite Hc. now apply Hgrow.
    + destruct Hr as [-> Hmk].
      apply (artist_mkdir_raises_file_exists _ _ _ _ _ Hdd Hcwd Hdown) in Hmk as ->.
      apply IH; simpl; auto.
      apply List.Forall_app. split; [exact Hlog |]. repeat constructor. eauto.
Qed.

Lemma for_tracks_records dl tracks : forall a,
  (length (log (Main.sys a)) + length (Main.main_log a) + length tracks
   <= length (log (Main.sys (Main.for_tracks dl tracks a)))
      + length (Main.main_log (Main.for_tracks dl tracks a)))%nat /\
  (length (Main.main_log (Main.for_tracks dl tracks a))
   <= length (Main.main_log a) + length tracks)%nat.
Proof.
  induction tracks as [| t rest IH]; intros a; simpl.
  - lia.
  - destruct (download_track dl t (Main.sys a)) as [[u | e] w'] eqn:Hrun;
      destruct (download_track_keeps _ _ _ _ _ Hrun) as (_ & _ & Hr).
    + destruct (IH (Main.App w' (Main.main_log a))) as [H1 H2]. simpl in *. lia.
    + destruct Hr as [-> _].
      destruct (IH (Main.App (Main.sys a)
                      (Main.main_log a ++ [(ERROR, Main.ErrorDownloadingTrack (title t) e)])))
        as [H1 H2].
      simpl in *. rewrite length_app in *. simpl in *. lia.
Qed.

End ProcessTracks.

(** X12.  In the flow of [main.py] the directories are made first, and
    [process_tracks] downloads into [downloads].  Then the failure of a
    missing download directory cannot happen: line 184 never logs a
    [FileNotFoundError] or a [NotADirectoryError]. *)
Theorem main_flow_never_misses_download_directory
    (w0 w : world) (tracks : list track) :
  Main.setup_directories w0 = (Ok tt, w) ->
  Forall (fun rec => forall ttl,
            rec <> (ERROR, Main.ErrorDownloadingTrack ttl FileNotFoundError) /\
            rec <> (ERROR, Main.ErrorDownloadingTrack ttl NotADirectoryError))
         (Main.main_log
            (Main.process_tracks (parse (py "downloads")) tracks (Main.App w []))).
Proof.
  intros Hsetup.
  destruct (setup_directories_dirs _ _ Hsetup) as [Hcwd Hdown].
  eapply List.Forall_impl;
    [| apply for_tracks_only_file_exists; simpl; eauto].
  intros rec [ttl0 ->] ttl. split; intros [=].
Qed.

Lemma main_flow_never_misses_download_directory_witness :
  Main.main_log
    (Main.process_tracks (parse (py "downloads")) [Sample.my_song]
       (Main.App (snd (Main.setup_directories Sample.no_root)) []))
  = [] /\
  Forall (fun rec => forall ttl,
            rec <> (ERROR, Main.ErrorDownloadingTrack ttl FileNotFoundError) /\
            rec <> (ERROR, Main.ErrorDownloadingTrack ttl NotADirectoryError))
         (Main.main_log
            (Main.process_tracks (parse (py "downloads")) [Sample.my_song]
               (Main.App (snd (Main.setup_directories Sample.no_root)) []))).
Proof.
  split; [vm_compute; reflexivity |].
  apply (main_flow_never_misses_download_directory Sample.no_root).
  apply (run_to (Main.setup_directories Sample.no_root) tt).
  vm_compute. reflexivity.
Defined.

Example blocked_artist_directory :
  Main.main_log
    (Main.process_tracks (parse (py "downloads")) [Sample.my_song]
       (Main.App (snd (Main.setup_directories MainSample.blocked)) []))
  = [(ERROR, Main.ErrorDownloadingTrack (py "My Song") FileExistsError)].
Proof. vm_compute. reflexivity. Qed.

(** X13.  No track stops the loop of [process_tracks] and none passes
    silently: for every track of the list at least one record is added,
    either by the downloader (skipped, downloaded, failed) or, when
    [download_track] raised, by line 184; and line 184 logs at most one
    record per track. *)
Theorem every_track_leaves_a_record
    (download_dir : path) (tracks : list track) (a : Main.app) :
  (length (log (Main.sys a)) + length (Main.main_log a) + length tracks
   <= length (log (Main.sys (Main.process_tracks download_dir tracks a)))
      + length (Main.main_log (Main.process_tracks download_dir tracks a)))%nat /\
  (length (Main.main_log (Main.process_tracks download_dir tracks a))
   <= length (Main.main_log a) + length tracks)%nat.
Proof. apply for_tracks_records. Qed.

Section Extraction.

Lemma lstrip_head s :
  match Main.lstrip s with
  | [] => True
  | c :: _ => Main.is_whitespace c = false
  end.
Proof.
  induction s as [| c s IH]; simpl; [exact I |].
  destruct (Main.is_whitespace c) eqn:Hc; [exact IH | exact Hc].
Qed.

Lemma rstrip_prefix x : exists tail, x = Main.rstrip x ++ tail.
Proof.
  assert (Hsuf : forall s, exists pre, s = pre ++ Main.lstrip s).
  { induction s as [| c s [pre IH]]; simpl; [now exists [] |].
    destruct (Main.is_whitespace c).
    - exists (c :: pre). simpl. now f_equal.
    - now exists []. }
  destruct (Hsuf (rev x)) as [pre Hpre]. exists (rev pre). unfold Main.rstrip.
  rewrite <- rev_app_distr, <- Hpre. now rewrite rev_involutive.
Qed.

Lemma rstrip_last x c rest d :
  Main.rstrip x = c :: rest ->
  Main.is_whitespace (List.last (c :: rest) d) = false.
Proof.
  unfold Main.rstrip. intros H. rewrite <- H.
  pose proof (lstrip_head (rev x)) as Hh.
  destruct (Main.lstrip (rev x)) as [| h z]; [discriminate |].
  cbn [rev]. now rewrite last_last.
Qed.

Lemma strip_stripped s : stripped (Main.strip s).
Proof.
  unfold stripped, Main.strip.
  destruct (Main.rstrip (Main.lstrip s)) as [| c rest] eqn:Hs; [exact I |].
  split.
  - destruct (rstrip_prefix (Main.lstrip s)) as [tail Htail].
    rewrite Hs in Htail. pose proof (lstrip_head s) as Hh.
    rewrite Htail in Hh. exact Hh.
  - eapply rstrip_last. exact Hs.
Qed.

Lemma extract_one_stripped item t :
  Main.extract_one item = inr t -> stripped (title t) /\ stripped (artist t).
Proof.
  unfold Main.extract_one.
  destruct (Main.find item (py "a") (py "trackItem__trackTitle")) as [a |];
    [| discriminate].
  destruct (Main.subscript a (py "href")) as [e | href]; [discriminate |].
  destruct (Main.find item (py "a") (py "trackItem__username")) as [b |];
    [| discriminate].
  intros [= <-]. simpl. split; apply strip_stripped.
Qed.

Lemma extract_each_spec items :
  length (fst (Main.extract_each items)) + length (snd (Main.extract_each items))
  = length items /\
  Forall (fun t => stripped (title t) /\ stripped (artist t))
         (fst (Main.extract_each items)) /\
  Forall (fun rec => exists e, rec = (ERROR, Main.ErrorExtractingTrackInfo e))
         (snd (Main.extract_each items)).
Proof.
  induction items as [| item rest (Hlen & Htracks & Hrecs)]; simpl.
  - split_and!; constructor.
  - destruct (Main.extract_each rest) as [tracks records]. simpl in *.
    destruct (Main.extract_one item) as [e | t] eqn:Hone; simpl.
    + split_and!; [lia | assumption | constructor; eauto].
    + split_and!; [lia | constructor; [now apply (extract_one_stripped item) | assumption]
                  | assumption].
Qed.

End Extraction.

(** X14.  [_extract_track_info] accounts for every item of the page: each
    [div] of class [trackItem], at any depth, gives either one track or one
    logged error, so the tracks and the error records together are as many
    as the items; nothing else is logged. *)
Theorem extraction_accounts_for_every_item (soup : Main.html) :
  length (fst (Main._extract_track_info soup))
  + length (snd (Main._extract_track_info soup))
  = length (Main.find_all soup (py "div") (py "trackItem")) /\
  Forall (fun rec => exists e, rec = (ERROR, Main.ErrorExtractingTrackInfo e))
         (snd (Main._extract_track_info soup)).
Proof.
  unfold Main._extract_track_info.
  destruct (extract_each_spec (Main.find_all soup (py "div") (py "trackItem")))
    as (Hlen & _ & Hrecs).
  split; assumption.
Qed.

(** X15.  The titles and artists [_extract_track_info] returns are
    stripped: none starts or ends with a whitespace character. *)
Theorem extracted_names_are_stripped (soup : Main.html) :
  Forall (fun t => stripped (title t) /\ stripped (artist t))
         (fst (Main._extract_track_info soup)).
Proof.
  unfold Main._extract_track_info.
  destruct (extract_each_spec (Main.find_all soup (py "div") (py "trackItem")))
    as (_ & Htracks & _).
  exact Htracks.
Qed.

Example likes_page_extraction :
  Main._extract_track_info MainSample.likes_page =
  ([Track (py "My Song") (py "DJ Test") (py "/dj-test/my-song")],
   [(ERROR, Main.ErrorExtractingTrackInfo (Main.KeyError (py "href")));
    (ERROR, Main.ErrorExtractingTrackInfo Main.NoneHasNoText)]).
Proof. vm_compute. reflexivity. Qed.

Section Footprint.

Implicit Types (f : gmap (list (list N)) node) (loc : list (list N)).

Lemma walk_dirs_grow f f' start comps loc :
  dirs_grow f f' -> walk f start comps = inr loc -> walk f' start comps = inr loc.
Proof.
  intros Hg. revert start. induction comps as [| c cs IH]; intros start; simpl.
  - trivial.
  - destruct (node_at f start) as [[d |] |] eqn:E; try discriminate.
    apply Hg in E. rewrite E. apply IH.
Qed.

Lemma dirs_agree_sym f f' : dirs_agree f f' -> dirs_agree f' f.
Proof. intros H l. symmetry. apply H. Qed.

(** A resolver writes nowhere but at the destination. *)
Lemma try_site_footprint s self u out w r w' l :
  try_site s self u out w = (r, w') ->
  resolve w out <> inr l ->
  node_at (fs w') l = node_at (fs w) l.
Proof.
  intros H Hl. apply try_site_outcome in H as (b & _ & _ & _ & _ & _ & Hfs).
  destruct Hfs as [[_ ->] | (page & download & loc & _ & Hr & _ & -> & _)].
  - reflexivity.
  - apply node_at_insert_ne. intros ->. contradiction.
Qed.

Lemma fail_all_footprint self u out services :
  Forall (from_site self) services ->
  forall w w1 l,
    fail_all services u out w = Some w1 ->
    resolve w out <> inr l ->
    node_at (fs w1) l = node_at (fs w) l.
Proof.
  induction 1 as [| s rest Hs _ IH]; intros w w1 l Hfail Hl; simpl in Hfail.
  - now injection Hfail as ->.
  - destruct (call_service s u out w) as [r w'] eqn:Hcall.
    destruct (reports_failure r) eqn:Hr; [| discriminate].
    destruct (call_site _ _ _ _ _ _ _ Hs Hcall) as (site & w'' & Hrun & ->).
    pose proof (try_site_same_dirs _ _ _ _ _ _ _ Hrun) as Hdirs.
    pose proof (try_site_footprint _ _ _ _ _ _ _ l Hrun Hl) as Hstep.
    destruct (try_site_outcome _ _ _ _ _ _ _ Hrun) as (b & -> & Hcwd & _).
    simpl in Hfail. rewrite (IH _ _ l Hfail); [exact Hstep |].
    intros Hres. apply Hl.
    apply (resolve_same_dirs w'' w out l); [congruence | | ].
    + apply dirs_agree_sym. exact Hdirs.
    + unfold resolve in *. simpl in Hres. exact Hres.
Qed.

Lemma for_services_footprint self services t out w r w' l :
  Forall (from_site self) services ->
  for_services services t out w = (r, w') ->
  resolve w out <> inr l ->
  node_at (fs w') l = node_at (fs w) l.
Proof.
  intros Hall Hrun Hl.
  destruct (for_services_ends t out services w)
    as [(pre & s & post & w1 & w2 & -> & Hf & Hc & Hend) | (w1 & Hf & Hend)];
    rewrite Hend in Hrun; injection Hrun as <- <-; simpl.
  - apply List.Forall_app in Hall as [Hpre Hrest].
    assert (Hs : from_site self s) by now inversion Hrest.
    destruct (fail_all_sites self _ _ [] _ Hpre _ _ Hf) as (Hcwd & Hdirs & _).
    destruct (call_site _ _ _ _ _ _ _ Hs Hc) as (site & w'' & Hsite & ->).
    simpl. rewrite (try_site_footprint _ _ _ _ _ _ _ l Hsite).
    + exact (fail_all_footprint self (url t) out pre Hpre w w1 l Hf Hl).
    + intros Hres. apply Hl.
      apply (resolve_same_dirs w1 w out l); [congruence | | exact Hres].
      apply dirs_agree_sym. exact Hdirs.
  - exact (fail_all_footprint self (url t) out services Hall w w1 l Hf Hl).
Qed.

End Footprint.

(** X16.  One call of [download_track] touches at most two places on
    disk: the directory of the artist, which it may create, and the
    destination inside it.  Every other file and directory is left as it
    was; and when the directory of the artist does not resolve, the call
    raises and the world is exactly as before. *)
Theorem download_track_footprint (self : downloader) (t : track) (w : world) :
  (forall e, resolve w (artist_dir_of self t) = inl e ->
     download_track self t w = (Raise e, w)) /\
  (forall d loc,
     resolve w (artist_dir_of self t) = inr d ->
     loc <> d ->
     loc <> d ++ [_sanitize_filename (title t) ++ py ".mp3"] ->
     node_at (fs (snd (download_track self t w))) loc = node_at (fs w) loc).
Proof.
  split.
  - intros e He. unfold download_track. apply download_track_with_raise.
    unfold mkdir_exist_ok. now rewrite He.
  - intros d loc Hd Hne1 Hne2. unfold download_track.
    destruct (download_track_with_ends self t (download_services self) w)
      as [(e & w' & Hmk & ->) | [(w0 & Hmk & _ & ->) | (w0 & Hmk & _ & ->)]].
    + simpl. now rewrite (mkdir_raise_unchanged _ _ _ _ Hmk).
    + simpl. revert Hmk. unfold mkdir_exist_ok. rewrite Hd.
      destruct (node_at (fs w) d) as [[x |] |]; intros [= <-]; try reflexivity.
      simpl. now apply node_at_insert_ne.
    + pose proof (mkdir_dirs_grow _ _ _ _ Hmk) as Hgrow.
      destruct (mkdir_frame _ _ _ _ Hmk) as (_ & _ & _ & _ & Hcwd).
      assert (Hstep : node_at (fs w0) loc = node_at (fs w) loc /\
                      node_at (fs w0) d = Some Dir).
      { revert Hmk. unfold mkdir_exist_ok. rewrite Hd.
        destruct (node_at (fs w) d) as [[x |] |] eqn:Hn; intros [= <-]; simpl.
        - auto.
        - split; [now apply node_at_insert_ne |].
          apply node_at_insert_eq. intros ->. discriminate. }
      destruct Hstep as [Hsame Hdir].
      assert (Hd0 : resolve w0 (artist_dir_of self t) = inr d).
      { unfold resolve in *. rewrite Hcwd.
        eapply walk_dirs_grow; [exact Hgrow | exact Hd]. }
      pose proof (output_resolves_below self t w0 d Hd0 Hdir) as Hout.
      destruct (for_services (download_services self) t (output_path_of self t) w0)
        as [r w'] eqn:Hrun. simpl.
      rewrite <- Hsame.
      apply (for_services_footprint self _ _ _ _ _ _ loc
               (download_services_from_site self) Hrun).
      rewrite Hout. intros [= <-]. contradiction.
Qed.

Lemma download_track_footprint_witness :
  node_at (fs (snd (download_track Sample.self Sample.my_song Sample.second_serves)))
    [py "home"; py "downloads"]
  = node_at (fs Sample.second_serves) [py "home"; py "downloads"].
Proof.
  destruct (download_track_footprint Sample.self Sample.my_song Sample.second_serves)
    as [_ Hrest].
  apply (Hrest [py "home"; py "downloads"; py "DJ_Test"]).
  - vm_compute. reflexivity.
  - discriminate.
  - discriminate.
Defined.
